(** * Holdout-ensemble draw synthesis of covid_model_deaths_spline

    Shallow embedding of the bookkeeping parts of
    [covid_model_deaths_spline/models.py] ([drop_days_by_indicator],
    [model_iteration], [run_models]) and [covid_model_deaths_spline/runner.py]
    ([make_deaths]). The statistical models ([cfr_model], [smoother]) are
    black boxes and are not modelled. *)

From Stdlib Require Import List Arith Lia ZArith String Ascii Decimal DecimalString DecimalNat QArith.
From Stdlib Require Import Sorting.Sorted Sorting.Permutation Qpower Qround Qabs Lqa Floats.SpecFloat.
Import ListNotations.
Open Scope string_scope.
Open Scope nat_scope.

(* ------------------------------------------------------------------ *)
(** ** Numbers as numpy produces them *)

(** A numpy scalar with an integral value: either an integer ([np.int64])
    or a float ([np.float64]).  Only the distinction matters for the way
    the value is printed in an f-string. *)
Inductive npnum :=
| NInt (n : nat)
| NFloat (n : nat).

(** [np.sum] of a Python list of integers: numpy turns the empty list into
    an empty [float64] array, whose sum is [0.0]; a non-empty list of ints
    sums to an [int64]. *)
Definition np_sum (l : list nat) : npnum :=
  match l with
  | [] => NFloat 0
  | _ => NInt (list_sum l)
  end.

(** Binary [+] between an [int64] and a numpy scalar: float is contagious. *)
Definition np_add_int (d : nat) (x : npnum) : npnum :=
  match x with
  | NInt n => NInt (d + n)
  | NFloat n => NFloat (d + n)
  end.

(** Decimal digits of a natural number. *)
Fixpoint uint_to_string (u : Decimal.uint) : string :=
  match u with
  | Decimal.Nil => EmptyString
  | Decimal.D0 u => String "0" (uint_to_string u)
  | Decimal.D1 u => String "1" (uint_to_string u)
  | Decimal.D2 u => String "2" (uint_to_string u)
  | Decimal.D3 u => String "3" (uint_to_string u)
  | Decimal.D4 u => String "4" (uint_to_string u)
  | Decimal.D5 u => String "5" (uint_to_string u)
  | Decimal.D6 u => String "6" (uint_to_string u)
  | Decimal.D7 u => String "7" (uint_to_string u)
  | Decimal.D8 u => String "8" (uint_to_string u)
  | Decimal.D9 u => String "9" (uint_to_string u)
  end.

(** [str] of a Python/numpy integer. *)
Definition str_nat (n : nat) : string := uint_to_string (Nat.to_uint n).

(** f-string formatting of a numpy scalar: an integral [float64] prints
    with a trailing [".0"] (e.g. [f'{np.float64(3.0)}'] is ["3.0"]). *)
Definition str_np (x : npnum) : string :=
  match x with
  | NInt n => str_nat n
  | NFloat n => str_nat n ++ ".0"
  end.

(* ------------------------------------------------------------------ *)
(** ** [run_models], lines 101-104: the draw allocation *)

(** [list[-1] += v] on a non-empty Python list. *)
Definition add_to_last (l : list nat) (v : nat) : list nat :=
  removelast l ++ [last l 0 + v].

(** [iteration_n_draws]: [doy_holdouts += 1];
    [[int(n_draws / doy_holdouts)] * doy_holdouts];
    [iteration_n_draws[-1] += n_draws - np.sum(iteration_n_draws)].
    For non-negative integers below 2^53 [int(a / b)] is the floor
    quotient, written [n_draws / k] on [nat]. *)
Definition iteration_n_draws (doy_holdouts n_draws : nat) : list nat :=
  let k := S doy_holdouts in
  let l := repeat (n_draws / k) k in
  add_to_last l (n_draws - list_sum l).

(** [doy_holdouts = np.arange(doy_holdouts)]: the holdout depths. *)
Definition holdout_depths (doy_holdouts : nat) : list nat := seq 0 (S doy_holdouts).

(* ------------------------------------------------------------------ *)
(** ** [run_models], lines 110-113: renaming draw columns *)

(** [cols = [f'draw_{d}' for d in np.arange(iteration_n_draws[i])]] *)
Definition local_cols (ds : list nat) (i : nat) : list string :=
  map (fun d => "draw_" ++ str_nat d) (seq 0 (nth i ds 0)).

(** [col_add = np.sum(iteration_n_draws[:i])] *)
Definition col_add (ds : list nat) (i : nat) : npnum := np_sum (firstn i ds).

(** [new_cols = [f'draw_{d + col_add}' for d in np.arange(iteration_n_draws[i])]] *)
Definition new_cols (ds : list nat) (i : nat) : list string :=
  map (fun d => "draw_" ++ str_np (np_add_int d (col_add ds i))) (seq 0 (nth i ds 0)).

(** The rename map [dict(zip(cols, new_cols))] applied to a column name. *)
Fixpoint rename_col (m : list (string * string)) (c : string) : string :=
  match m with
  | [] => c
  | (a, b) :: m' => if String.eqb a c then b else rename_col m' c
  end.

(** Draw column names of iteration [i] after the rename. *)
Definition renamed_draw_cols (ds : list nat) (i : nat) : list string :=
  map (rename_col (combine (local_cols ds i) (new_cols ds i))) (local_cols ds i).

(** Draw columns of the outer merge of all iterations, in order. *)
Definition assembled_draw_cols (H n_draws : nat) : list string :=
  let ds := iteration_n_draws H n_draws in
  flat_map (renamed_draw_cols ds) (seq 0 (List.length ds)).

(* ------------------------------------------------------------------ *)
(** ** [drop_days_by_indicator] and the blanking loop of [model_iteration] *)

Section Blanking.

(** Values of an indicator column; [None] is [NaN]. *)
Variable V : Type.

Definition notnan (x : option V) : bool :=
  match x with Some _ => true | None => false end.

(** [np.argwhere(~np.isnan(data))] on positions [k], [k+1], ...:
    the ascending positions of the non-missing values. *)
Fixpoint argwhere_from (k : nat) (data : list (option V)) : list nat :=
  match data with
  | [] => []
  | x :: t => if notnan x then k :: argwhere_from (S k) t else argwhere_from (S k) t
  end.

Definition argwhere (data : list (option V)) : list nat := argwhere_from 0 data.

(** The Python slice [xs[-h:]] for [h > 0]: the last [h] elements, or the
    whole list when it is shorter. *)
Definition slice_last (h : nat) (xs : list nat) : list nat :=
  skipn (List.length xs - h) xs.

(** [data[drop_idx] = np.nan] on positions [k], [k+1], ... *)
Fixpoint set_nan_from (k : nat) (drop_idx : list nat) (data : list (option V))
  : list (option V) :=
  match data with
  | [] => []
  | x :: t =>
      (if existsb (Nat.eqb k) drop_idx then None else x) :: set_nan_from (S k) drop_idx t
  end.

(** [drop_days_by_indicator(data, doy_holdout)]. *)
Definition drop_days_by_indicator (data : list (option V)) (doy_holdout : nat)
  : list (option V) :=
  if 0 <? doy_holdout
  then set_nan_from 0 (slice_last doy_holdout (argwhere data)) data
  else data.

(** Number of non-missing values of a column. *)
Definition count_notnan (data : list (option V)) : nat :=
  List.length (List.filter notnan data).

(** A row of [model_data] as read by [model_iteration] (the columns the
    blanking step touches or keys on). *)
Record row := mkRow {
  location_id : Z;
  Date : Z;
  death_rate : option V;
  confirmed_case_rate : option V;
  hospitalization_rate : option V;
  population : option V
}.

(** The three entries of [indicators] (line 35). *)
Inductive indicator := DeathRate | ConfirmedCaseRate | HospitalizationRate.

Definition indicator_eq (a b : indicator) : {a = b} + {a <> b}.
Proof. decide equality. Defined.

Definition indicators : list indicator :=
  [DeathRate; ConfirmedCaseRate; HospitalizationRate].

Definition get_ind (c : indicator) (r : row) : option V :=
  match c with
  | DeathRate => death_rate r
  | ConfirmedCaseRate => confirmed_case_rate r
  | HospitalizationRate => hospitalization_rate r
  end.

Definition set_ind (c : indicator) (v : option V) (r : row) : row :=
  match c with
  | DeathRate => mkRow (location_id r) (Date r) v (confirmed_case_rate r)
                       (hospitalization_rate r) (population r)
  | ConfirmedCaseRate => mkRow (location_id r) (Date r) (death_rate r) v
                               (hospitalization_rate r) (population r)
  | HospitalizationRate => mkRow (location_id r) (Date r) (death_rate r)
                                 (confirmed_case_rate r) v (population r)
  end.

Definition frame := list row.

(** [model_data[indicator]] as an array. *)
Definition get_col (c : indicator) (df : frame) : list (option V) := map (get_ind c) df.

(** [model_data[indicator] = vals] for an array of the frame's length. *)
Definition set_col (c : indicator) (vals : list (option V)) (df : frame) : frame :=
  map (fun '(r, v) => set_ind c v r) (combine df vals).

(** One pass of the loop of lines 36-37:
    [model_data[indicator] = drop_days_by_indicator(model_data[indicator], h)]. *)
Definition blank_step (h : nat) (df : frame) (c : indicator) : frame :=
  set_col c (drop_days_by_indicator (get_col c df) h) df.

(** Lines 36-37 on a frame value. *)
Definition blank_frame (h : nat) (df : frame) : frame :=
  fold_left (blank_step h) indicators df.

(** Line 38: [model_data.loc[~model_data[indicators].isnull().all(axis=1)]]. *)
Definition drop_empty_rows (df : frame) : frame :=
  List.filter (fun r => existsb (fun c => notnan (get_ind c r)) indicators) df.

(** *** The store: [model_data] is a shared pandas object *)

(** Frames live in a heap addressed by references; [df.copy()] and
    [df.loc[mask]] allocate, [Series.values] is a view whose in-place
    assignment writes through to the frame it belongs to. *)
Definition store := list frame.
Definition ref := nat.

Definition M (A : Type) : Type := store -> A * store.

Definition ret {A} (a : A) : M A := fun s => (a, s).
Definition bind {A B} (m : M A) (k : A -> M B) : M B :=
  fun s => let '(a, s') := m s in k a s'.

Notation "x <- m ;; k" := (bind m (fun x => k)) (at level 61, m at next level, right associativity).
Notation "m ;;; k" := (bind m (fun _ => k)) (at level 61, right associativity).

Definition deref (r : ref) : M frame := fun s => (nth r s [], s).

Definition alloc (df : frame) : M ref := fun s => (List.length s, List.app s [df]).

Fixpoint list_set {A} (l : list A) (i : nat) (x : A) : list A :=
  match l, i with
  | [], _ => []
  | _ :: t, 0 => x :: t
  | y :: t, S i' => y :: list_set t i' x
  end.

Definition write (r : ref) (df : frame) : M unit := fun s => (tt, list_set s r df).

(** [model_data.copy()]. *)
Definition copy (r : ref) : M ref := df <- deref r ;; alloc df.

(** [drop_days_by_indicator(model_data[indicator], h)]: [data.values] is a
    view into column [c] of the frame at [r]; the assignment
    [data[drop_idx] = np.nan] writes through to that frame. *)
Definition drop_days_view (r : ref) (c : indicator) (h : nat) : M (list (option V)) :=
  df <- deref r ;;
  let data := drop_days_by_indicator (get_col c df) h in
  write r (set_col c data df) ;;;
  ret data.

(** [model_data[indicator] = ...]. *)
Definition assign_col (r : ref) (c : indicator) (vals : list (option V)) : M unit :=
  df <- deref r ;; write r (set_col c vals df).

Fixpoint for_each {A} (xs : list A) (f : A -> M unit) : M unit :=
  match xs with
  | [] => ret tt
  | x :: t => f x ;;; for_each t f
  end.

(** Lines 34-38 of [model_iteration]: the frame handed to the first-stage
    models.  The models themselves are external. *)
Definition model_iteration_data (r : ref) (doy_holdout : nat) : M ref :=
  r' <- copy r ;;
  for_each indicators (fun c => vals <- drop_days_view r' c doy_holdout ;; assign_col r' c vals) ;;;
  df <- deref r' ;;
  alloc (drop_empty_rows df).

Fixpoint map_m {A B} (f : A -> M B) (xs : list A) : M (list B) :=
  match xs with
  | [] => ret []
  | x :: t => y <- f x ;; ys <- map_m f t ;; ret (y :: ys)
  end.

(** Line 106 of [run_models]: one [model_iteration] per holdout depth, each
    given the same [model_data] object. *)
Definition run_iterations (r : ref) (doy_holdouts : nat) : M (list ref) :=
  map_m (fun h => model_iteration_data r h) (holdout_depths doy_holdouts).

End Blanking.

Arguments mkRow {V}.

(* ------------------------------------------------------------------ *)
(** ** [make_deaths], lines 159-178: capturing location-dates with NaNs *)

Section Continuity.

Variable V : Type.

(** A row of the collected [smooth_draws] table, indexed by
    [(location_id, date)]; [sd_draws] are its remaining (draw) columns. *)
Record drow := mkDrow {
  sd_location_id : Z;
  sd_date : Z;
  sd_draws : list (option V)
}.

(** [smooth_draws.isnull().any(axis=1)] *)
Definition nan_row (r : drow) : bool :=
  existsb (fun x => negb (notnan V x)) (sd_draws r).

(** Insert into a sorted duplicate-free list of group keys. *)
Fixpoint insert_key (k : Z) (ks : list Z) : list Z :=
  match ks with
  | [] => [k]
  | k' :: t =>
      if (k <? k')%Z then k :: ks
      else if (k =? k')%Z then ks
      else k' :: insert_key k t
  end.

(** The sorted keys of [groupby('location_id')]. *)
Definition group_keys (ks : list Z) : list Z := fold_right insert_key [] ks.

Definition dates_of (l : Z) (rows : list drow) : list Z :=
  map sd_date (List.filter (fun r => (sd_location_id r =? l)%Z) rows).

Definition list_min (xs : list Z) : option Z :=
  match xs with [] => None | x :: t => Some (fold_left Z.min t x) end.

Definition list_max (xs : list Z) : option Z :=
  match xs with [] => None | x :: t => Some (fold_left Z.max t x) end.

(** [rows.groupby('location_id')['date'].min()] as (key, value) pairs. *)
Definition group_date_min (rows : list drow) : list (Z * Z) :=
  flat_map (fun l => match list_min (dates_of l rows) with
                     | Some m => [(l, m)] | None => [] end)
           (group_keys (map sd_location_id rows)).

(** [rows.groupby('location_id')['date'].max()]. *)
Definition group_date_max (rows : list drow) : list (Z * Z) :=
  flat_map (fun l => match list_max (dates_of l rows) with
                     | Some m => [(l, m)] | None => [] end)
           (group_keys (map sd_location_id rows)).

Fixpoint lookup_key (l : Z) (s : list (Z * Z)) : option Z :=
  match s with
  | [] => None
  | (k, v) :: t => if (k =? l)%Z then Some v else lookup_key l t
  end.

(** [(nan_min - val_max).apply(lambda x: x.days)]: pandas aligns the two
    series on the union of their indexes; a key present in only one of
    them gives [NaT], whose [days] is [NaN]. *)
Definition sub_aligned (a b : list (Z * Z)) : list (Z * option Z) :=
  map (fun l => (l, match lookup_key l a, lookup_key l b with
                    | Some x, Some y => Some (x - y)%Z
                    | _, _ => None
                    end))
      (group_keys (map fst a ++ map fst b)).

(** [date_diffs.loc[date_diffs.notnull()]]. *)
Fixpoint notnull_entries (s : list (Z * option Z)) : list (Z * Z) :=
  match s with
  | [] => []
  | (l, Some g) :: t => (l, g) :: notnull_entries t
  | (l, None) :: t => notnull_entries t
  end.

Definition date_diffs (nans kept : list drow) : list (Z * Z) :=
  notnull_entries (sub_aligned (group_date_min nans) (group_date_max kept)).

(** A written table: its header and its rows. *)
Record table := mkTable { header : list string; body : list (list Z) }.

(** [series.to_csv(path, index=...)] for the series [date_diffs], named
    ["date"] (the column it was computed from), indexed by ["location_id"]. *)
Definition series_to_csv (index : bool) (s : list (Z * Z)) : table :=
  if index
  then mkTable ["location_id"; "date"] (map (fun '(l, g) => [l; g]) s)
  else mkTable ["date"] (map (fun '(_, g) => [g]) s).

(** How the step ends: the run continues with the kept rows and the
    recorded [nan_locations], or [ValueError] is raised. *)
Inductive guard_outcome :=
| Continue (kept : list drow) (nan_locations : list Z)
| Raise (message : string).

(** Lines 159-178: the files written, then the outcome. *)
Definition capture_nans (smooth_draws : list drow) : list (string * table) * guard_outcome :=
  let smooth_draws_nans := List.filter nan_row smooth_draws in
  match smooth_draws_nans with
  | [] => ([], Continue smooth_draws [])
  | _ =>
      let kept := List.filter (fun r => negb (nan_row r)) smooth_draws in
      let dd := date_diffs smooth_draws_nans kept in
      if existsb (fun '(_, g) => (g <? 0)%Z) dd
      then ([("problem_location_report.csv", series_to_csv false dd)],
            Raise "Dropping NaNs in middle of time series (see problem_location_report.csv)")
      else ([], Continue kept (map fst dd))
  end.

End Continuity.

Arguments mkDrow {V}.

(* ------------------------------------------------------------------ *)
(** ** [make_deaths], lines 223-245: cumulative deaths to daily deaths *)

(** [DURATION] and the lag [DURATION + 11] used for infections. *)
Definition DURATION : Z := 12.
Definition infection_lag : Z := (DURATION + 11)%Z.

(** A row of [smooth_draws] with its [draw_0 .. draw_{n-1}] values
    (cumulative deaths; floats, modelled as integers). *)
Record crow := mkCrow { cr_location_id : Z; cr_date : Z; cr_draws : list Z }.

Definition key_le (a b : crow) : bool :=
  ((cr_location_id a <? cr_location_id b)%Z
   || ((cr_location_id a =? cr_location_id b)%Z && (cr_date a <=? cr_date b)%Z)).

Fixpoint insert_row (r : crow) (rows : list crow) : list crow :=
  match rows with
  | [] => [r]
  | r' :: t => if key_le r' r then r' :: insert_row r t else r :: rows
  end.

(** [.sort_index()] on the [(location_id, date)] index. *)
Definition sort_index (rows : list crow) : list crow := fold_right insert_row [] rows.

(** [np.diff(m, axis=0, prepend=p)]: each row minus the one before it,
    the first row minus the prepended row. *)
Fixpoint diff_prepend (prev : list Z) (m : list (list Z)) : list (list Z) :=
  match m with
  | [] => []
  | x :: t => map (fun '(a, b) => (a - b)%Z) (combine x prev) :: diff_prepend x t
  end.

(** The scalar [prepend=0] broadcast to one row of [n_draws] zeros. *)
Definition zeros (n : nat) : list Z := repeat 0%Z n.

Definition group_rows (l : Z) (rows : list crow) : list crow :=
  List.filter (fun r => (cr_location_id r =? l)%Z) rows.

(** [.groupby('location_id').apply(lambda x: pd.DataFrame(np.diff(x[draw_cols],
    axis=0, prepend=0), index=x['date'], columns=draw_cols))] on the sorted
    table; the result is indexed by [(location_id, date)]. *)
Definition daily_deaths (n_draws : nat) (smooth_draws : list crow) : list crow :=
  let sorted := sort_index smooth_draws in
  flat_map (fun l =>
              let x := group_rows l sorted in
              map (fun '(r, v) => mkCrow l (cr_date r) v)
                  (combine x (diff_prepend (zeros n_draws) (map cr_draws x))))
           (group_keys (map cr_location_id sorted)).

(** Modelled from the spec: [data.write_infections] (not among the sources)
    writes, for draw index [d], the daily death value of every row of a
    location of the hierarchy, its date shifted backward by [duration]
    (spec 4.6, steps 1 and 3; the joined infection columns are omitted). *)
Definition write_infections (smooth_draws : list crow) (md_locs : list Z)
           (duration : Z) (d : nat) : list (Z * Z * Z) :=
  map (fun r => (cr_location_id r, (cr_date r - duration)%Z, nth d (cr_draws r) 0%Z))
      (List.filter (fun r => existsb (Z.eqb (cr_location_id r)) md_locs) smooth_draws).

(** Lines 229-247: the per-draw files. *)
Definition infection_files (n_draws : nat) (smooth_draws : list crow) (md_locs : list Z)
  : list (list (Z * Z * Z)) :=
  map (write_infections (daily_deaths n_draws smooth_draws) md_locs infection_lag)
      (seq 0 n_draws).

(* ------------------------------------------------------------------ *)
(** ** [run_models], lines 129-135: rate draws to counts *)

(** *** float64 arithmetic *)

(** A numpy [float64]: a finite value, an infinity or [NaN].  Zeros are
    unsigned (a signed zero only shows in a division by zero). *)
Inductive f64 := Fin (q : Q) | Inf (neg : bool) | NaN.

Definition pow2 (e : Z) : Q := Qpower 2%Q e.

(** For [a > 0], the [E] with [2^(E-1) <= a < 2^E]. *)
Definition mag (a : Q) : Z :=
  let e0 := (Z.log2 (Qnum a) - Z.log2 (Zpos (Qden a)))%Z in
  if Qle_bool (pow2 e0) a then (e0 + 1)%Z else e0.

(** Rounding to the nearest integer, ties to even. *)
Definition rne (q : Q) : Z :=
  let f := Qfloor q in
  match Qcompare (q - inject_Z f) (1 # 2) with
  | Lt => f
  | Gt => (f + 1)%Z
  | Eq => if Z.even f then f else (f + 1)%Z
  end.

(** IEEE 754 binary64 rounding of an exact result, to nearest with ties to
    even: 53 significant bits, subnormals below [2^-1022] (quantum
    [2^-1074]), overflow to an infinity when the rounded value reaches
    [2^1024]. *)
Definition round64 (z : Q) : f64 :=
  if Qeq_bool z 0 then Fin 0 else
  let a := Qabs z in
  let e := Z.max (mag a - 53) (-1074) in
  let v := (inject_Z (rne (a / pow2 e)) * pow2 e)%Q in
  if Qle_bool (pow2 1024) v then Inf (negb (Qle_bool 0 z))
  else Fin (if Qle_bool 0 z then v else (- v)%Q).

(** [x * y] on float64. *)
Definition mul64 (a b : f64) : f64 :=
  match a, b with
  | NaN, _ | _, NaN => NaN
  | Fin x, Fin y => round64 (x * y)
  | Fin x, Inf s | Inf s, Fin x =>
      if Qeq_bool x 0 then NaN else Inf (xorb s (negb (Qle_bool 0 x)))
  | Inf s, Inf t => Inf (xorb s t)
  end.

(** [x / y] on float64 (a zero divisor taken as [+0.0]). *)
Definition div64 (a b : f64) : f64 :=
  match a, b with
  | NaN, _ | _, NaN => NaN
  | Fin x, Fin y =>
      if Qeq_bool y 0
      then (if Qeq_bool x 0 then NaN else Inf (negb (Qle_bool 0 x)))
      else round64 (x / y)
  | Fin _, Inf _ => Fin 0
  | Inf s, Fin y => Inf (xorb s (negb (Qle_bool 0 y)))
  | Inf _, Inf _ => NaN
  end.


(** The value of a Stdlib [SpecFloat] (the IEEE 754 specification behind
    Rocq's primitive floats), for comparing [mul64] and [div64] with it. *)
Definition spec_float_value (x : spec_float) : f64 :=
  match x with
  | S754_zero _ => Fin 0
  | S754_infinity s => Inf s
  | S754_nan => NaN
  | S754_finite s m e => Fin ((if s then (-1)%Q else 1%Q) * inject_Z (Zpos m) * pow2 e)%Q
  end.

Definition f64_eqb (a b : f64) : bool :=
  match a, b with
  | Fin x, Fin y => Qeq_bool x y
  | Inf s, Inf t => Bool.eqb s t
  | NaN, NaN => true
  | _, _ => false
  end.

(** [mul64] and [div64] against [SFmul] and [SFdiv] at precision 53 and
    [emax = 1024] (binary64) on positive finite operands [m1 * 2^e1] and
    [m2 * 2^e2]. *)
Definition agrees_with_spec_float (m1 : positive) (e1 : Z) (m2 : positive) (e2 : Z) : bool :=
  let a := S754_finite false m1 e1 in
  let b := S754_finite false m2 e2 in
  f64_eqb (mul64 (spec_float_value a) (spec_float_value b)) (spec_float_value (SFmul 53 1024 a b))
  && f64_eqb (div64 (spec_float_value a) (spec_float_value b)) (spec_float_value (SFdiv 53 1024 a b)).





(* ------------------------------------------------------------------ *)
(** ** [make_deaths], lines 191-198: post-model aggregates *)

(** [aggregate.Location(location_id, location_name)]. *)
Record Location := mkLocation { lid : Z; lname : string }.

(** A row of [model_data] as aggregated: rate and population. *)
Record mrow := mkMrow {
  m_location_id : Z;
  m_location_name : string;
  m_date : Z;
  m_death_rate : Q;
  m_population : Q
}.

(** The hierarchy: each most-detailed location with its ancestors
    ([path_to_top_parent]). *)
Definition hierarchy := list (Z * list Z).

Definition members (h : hierarchy) (a : Z) : list Z :=
  map fst (List.filter (fun '(_, path) => existsb (Z.eqb a) path) h).

Definition sumQ (xs : list Q) : Q := fold_right Qplus 0%Q xs.

(** Modelled from the spec: [aggregate.compute_location_aggregates_data]
    (not among the sources).  For each declared aggregate location and each
    date of its constituents, one row carrying the declared id and name,
    with the rate [sum(rate * population) / sum(population)] (spec 4.5). *)
Definition compute_location_aggregates_data (model_data : list mrow) (h : hierarchy)
           (agg_locations : list Location) : list mrow :=
  flat_map (fun a =>
    let rows := List.filter (fun r => existsb (Z.eqb (m_location_id r)) (members h (lid a)))
                            model_data in
    map (fun t =>
           let rt := List.filter (fun r => (m_date r =? t)%Z) rows in
           let pop := sumQ (map m_population rt) in
           mkMrow (lid a) (lname a) t
                  (sumQ (map (fun r => m_death_rate r * m_population r)%Q rt) / pop)%Q pop)
        (group_keys (map m_date rows)))
    agg_locations.

(** Modelled from the spec: [aggregate.compute_location_aggregates_draws]
    (not among the sources): draws of the constituents summed pointwise,
    one row per declared aggregate location and date. *)
Definition compute_location_aggregates_draws (draws : list crow) (h : hierarchy)
           (agg_locations : list Location) : list crow :=
  flat_map (fun a =>
    let rows := List.filter (fun r => existsb (Z.eqb (cr_location_id r)) (members h (lid a)))
                            draws in
    map (fun t =>
           let rt := List.filter (fun r => (cr_date r =? t)%Z) rows in
           mkCrow (lid a) t
                  (fold_right (fun r acc => map (fun '(x, y) => (x + y)%Z) (combine (cr_draws r) acc))
                              (match rt with [] => [] | r :: _ => map (fun _ => 0%Z) (cr_draws r) end)
                              rt))
        (group_keys (map cr_date rows)))
    agg_locations.

(** Lines 192-198. *)
Definition post_model_aggregates (model_data : list mrow) (smooth_draws : list crow)
           (h : hierarchy) (agg_locations : list Location) : list mrow * list crow :=
  let agg_locations := mkLocation 1 "Global" :: agg_locations in
  let agg_model_data := compute_location_aggregates_data model_data h agg_locations in
  let agg_model_data :=
    map (fun r => mkMrow (- m_location_id r) (m_location_name r ++ " (model aggregate)")
                         (m_date r) (m_death_rate r) (m_population r)) agg_model_data in
  let agg_draw_df := compute_location_aggregates_draws smooth_draws h agg_locations in
  let agg_draw_df := map (fun r => mkCrow (- cr_location_id r) (cr_date r) (cr_draws r))
                         agg_draw_df in
  (agg_model_data, agg_draw_df).

(* ------------------------------------------------------------------ *)
(** ** [run_models], lines 110-129: merging the iterations' draw tables *)

(** Columns of [result.smooth_draws] (or [noisy_draws]) of iteration [i]
    as the rename of lines 111-118 expects them: the frame's other columns
    [base], then the local draw columns [cols] of line 111. *)
Definition iteration_result_cols (base : list string) (ds : list nat) (i : nat) : list string :=
  base ++ local_cols ds i.

(** [sd.rename(index=str, columns=dict(zip(cols, new_cols)))] on the
    column names. *)
Definition renamed_result_cols (base : list string) (ds : list nat) (i : nat) : list string :=
  map (rename_col (combine (local_cols ds i) (new_cols ds i))) (iteration_result_cols base ds i).

(** Columns of [pd.merge(x, y, how='outer')]: with no [on], the frames are
    joined on their common columns, which appear once, in [x]'s order;
    [y]'s other columns follow. *)
Definition merge_cols (x y : list string) : list string :=
  x ++ List.filter (fun c => negb (existsb (String.eqb c) x)) y.

(** [functools.reduce(f, xs)] without an initial value; [None] is the
    [TypeError] raised on an empty list. *)
Definition py_reduce {A} (f : A -> A -> A) (xs : list A) : option A :=
  match xs with
  | [] => None
  | x :: t => Some (fold_left f t x)
  end.

(** Columns of [smooth_draws] after line 121 (and of [noisy_draws] after
    line 120). *)
Definition merged_result_cols (base : list string) (H n_draws : nat) : option (list string) :=
  let ds := iteration_n_draws H n_draws in
  py_reduce merge_cols (map (renamed_result_cols base ds) (seq 0 (List.length ds))).

(** Line 129: [[col for col in smooth_draws.columns if col.startswith('draw_')]]. *)
Definition select_draw_cols (cols : list string) : list string :=
  List.filter (String.prefix "draw_") cols.

(* ------------------------------------------------------------------ *)
(** ** [model_iteration], lines 59-65: the fixed output columns *)

Section KeepCols.

Variable V : Type.

(** A frame as its ordered, named columns over [nrows] rows. *)
Record cframe := mkCframe { nrows : nat; columns : list (string * list (option V)) }.

Definition keep_cols : list string :=
  ["location_id"; "location_name"; "Date";
   "Confirmed case rate"; "Hospitalization rate"; "Death rate";
   "Predicted death rate (CFR)"; "Predicted death rate (HFR)"; "population"].

Definition has_col (col : string) (df : cframe) : bool :=
  existsb (String.eqb col) (map fst (columns df)).

(** [if col not in model_data.columns: model_data[col] = np.nan]: a new
    column, all [NaN], appended at the end. *)
Definition add_nan_col (df : cframe) (col : string) : cframe :=
  if has_col col df then df
  else mkCframe (nrows df) (columns df ++ [(col, repeat None (nrows df))]).

(** [model_data.loc[:, cols]]: for each requested label, every column
    carrying it, in the frame's order. *)
Definition loc_cols (df : cframe) (cols : list string) : cframe :=
  mkCframe (nrows df)
           (flat_map (fun k => List.filter (fun '(c, _) => String.eqb c k) (columns df)) cols).

(** Lines 59-65. *)
Definition complete_keep_cols (df : cframe) : cframe :=
  loc_cols (fold_left add_nan_col keep_cols df) keep_cols.

End KeepCols.

Arguments mkCframe {V}.

(* ------------------------------------------------------------------ *)
(** ** [make_deaths], lines 123-146: jobs and failed locations *)

Definition PARENT_MODEL_LOCATIONS : list Z := [189%Z].

Definition memZ (l : Z) (ls : list Z) : bool := existsb (Z.eqb l) ls.

(** [Series.unique()]: distinct values in order of first appearance. *)
Fixpoint unique_acc (seen : list Z) (xs : list Z) : list Z :=
  match xs with
  | [] => []
  | x :: t => if memZ x seen then unique_acc seen t else x :: unique_acc (x :: seen) t
  end.

Definition unique (xs : list Z) : list Z := unique_acc [] xs.

(** The keys of [job_args_map] (lines 123-129), in insertion order. *)
Definition job_locations (model_locs : list Z) : list Z :=
  List.filter (fun l => negb (memZ l PARENT_MODEL_LOCATIONS)) (unique model_locs).

(** Lines 140-145; [model_locs] is [model_data['location_id']],
    [post_locs] is [post_model_data['location_id']] and [md_locs] is
    [hierarchy['location_id']]. *)
Definition failed_model_locations (model_locs post_locs md_locs : list Z) : list Z :=
  let f := unique (List.filter (fun l => negb (memZ l post_locs)) model_locs) in
  let f := List.filter (fun l => negb (memZ l PARENT_MODEL_LOCATIONS)) f in
  List.filter (fun l => memZ l md_locs) f.

(* ================================================================== *)
(** * Properties *)

(* ------------------------------------------------------------------ *)
(** ** Draw allocation *)

Lemma list_sum_repeat (b k : nat) : list_sum (repeat b k) = b * k.
Proof. induction k as [|k IH]; simpl; [lia | rewrite IH; lia]. Qed.

Lemma iteration_n_draws_shape (H n : nat) :
  iteration_n_draws H n
  = (repeat (n / S H) H ++ [n / S H + (n - n / S H * S H)])%list.
Proof.
  unfold iteration_n_draws, add_to_last.
  rewrite list_sum_repeat.
  replace (repeat (n / S H) (S H)) with (repeat (n / S H) H ++ [n / S H])%list.
  2:{ rewrite <- Nat.add_1_r. now rewrite repeat_app. }
  now rewrite removelast_last, last_last.
Qed.

Lemma div_mul_le (n k : nat) : n / S k * S k <= n.
Proof.
  pose proof (Nat.div_mod n (S k) ltac:(lia)) as E.
  pose proof (Nat.mod_upper_bound n (S k) ltac:(lia)). nia.
Qed.

(** C2: the allocation has [H+1] entries, the first [H] equal to
    [floor(n_draws/(H+1))], the last one absorbing the remainder; they sum to
    [n_draws], none is below the base, [H = 0] gives one entry [n_draws],
    and [H = 2], [n_draws = 10] gives [3, 3, 4]. *)
Theorem iteration_n_draws_spec (H n_draws : nat) :
  let ds := iteration_n_draws H n_draws in
  let base := n_draws / S H in
  List.length ds = S H
  /\ (forall i, i < H -> nth i ds 0 = base)
  /\ nth H ds 0 = base + (n_draws - base * S H)
  /\ list_sum ds = n_draws
  /\ Forall (fun d => base <= d) ds
  /\ iteration_n_draws 0 n_draws = [n_draws]
  /\ iteration_n_draws 2 10 = [3; 3; 4].
Proof.
  cbv zeta. rewrite iteration_n_draws_shape.
  pose proof (div_mul_le n_draws H).
  repeat split.
  - rewrite length_app, repeat_length. simpl. lia.
  - intros i Hi. rewrite app_nth1 by (rewrite repeat_length; lia).
    rewrite nth_indep with (d' := n_draws / S H) by (rewrite repeat_length; lia).
    apply nth_repeat.
  - rewrite app_nth2 by (rewrite repeat_length; lia).
    now rewrite repeat_length, Nat.sub_diag.
  - rewrite list_sum_app, list_sum_repeat.
    remember (n_draws / S H) as b. simpl. rewrite Nat.mul_succ_r in *. lia.
  - apply Forall_app. split.
    + apply Forall_forall. intros x Hx. apply repeat_spec in Hx. lia.
    + constructor; [lia | constructor].
  - rewrite iteration_n_draws_shape, Nat.div_1_r. simpl. f_equal. lia.
Qed.

(* ------------------------------------------------------------------ *)
(** ** Renaming the draw columns *)

Lemma uint_to_string_inj (u v : Decimal.uint) :
  uint_to_string u = uint_to_string v -> u = v.
Proof.
  revert v; induction u; destruct v; simpl; intro E;
    try discriminate; try reflexivity;
    injection E as E; f_equal; auto.
Qed.

Lemma str_nat_inj (a b : nat) : str_nat a = str_nat b -> a = b.
Proof.
  unfold str_nat. intro E. apply uint_to_string_inj in E.
  now apply DecimalNat.Unsigned.to_uint_inj.
Qed.

Lemma draw_prefix_inj (x y : string) : "draw_" ++ x = "draw_" ++ y -> x = y.
Proof. simpl. intro E. now injection E. Qed.

Lemma rename_col_combine (f g : nat -> string) (xs : list nat) :
  (forall a b, f a = f b -> a = b) -> NoDup xs ->
  forall x, In x xs -> rename_col (combine (map f xs) (map g xs)) (f x) = g x.
Proof.
  intros Hf Hnd. induction Hnd as [|y ys Hy Hnd IH]; simpl; [tauto|].
  intros x [<- | Hx].
  - now rewrite String.eqb_refl.
  - destruct (String.eqb_spec (f y) (f x)) as [E|E].
    + apply Hf in E. subst. contradiction.
    + now apply IH.
Qed.

(** The rename sends each local column to the new column at its position. *)
Lemma renamed_draw_cols_new (ds : list nat) (i : nat) :
  renamed_draw_cols ds i = new_cols ds i.
Proof.
  unfold renamed_draw_cols, local_cols, new_cols.
  rewrite map_map.
  apply map_ext_in. intros d Hd.
  apply (rename_col_combine (fun d => "draw_" ++ str_nat d)
           (fun d => "draw_" ++ str_np (np_add_int d (col_add ds i)))).
  - intros a b E. now apply str_nat_inj, draw_prefix_inj.
  - apply seq_NoDup.
  - exact Hd.
Qed.

(** C1 (code_bug): [col_add] of iteration 0 is [np.sum([])], the float
    [0.0], so the first iteration's draws are renamed [draw_0.0],
    [draw_1.0], ... instead of [draw_0], [draw_1], ...; later iterations
    get [draw_{c+d}] as intended.  At [H = 2], [n_draws = 10] the assembled
    draw columns are [draw_0.0 .. draw_2.0, draw_3 .. draw_9]: [draw_0] is
    not among them. *)
Theorem assembled_draw_cols_float_offset (H n_draws : nat) :
  let ds := iteration_n_draws H n_draws in
  renamed_draw_cols ds 0
    = map (fun d => "draw_" ++ str_nat d ++ ".0") (seq 0 (nth 0 ds 0))
  /\ (forall i, 1 <= i <= H ->
        renamed_draw_cols ds i
        = map (fun d => "draw_" ++ str_nat (d + list_sum (firstn i ds))) (seq 0 (nth i ds 0)))
  /\ assembled_draw_cols 2 10
     = ["draw_0.0"; "draw_1.0"; "draw_2.0"; "draw_3"; "draw_4"; "draw_5";
        "draw_6"; "draw_7"; "draw_8"; "draw_9"]
  /\ ~ In "draw_0" (assembled_draw_cols 2 10).
Proof.
  cbv zeta. split; [|split; [|split]].
  - rewrite renamed_draw_cols_new. unfold new_cols, col_add. simpl.
    apply map_ext. intro d. now rewrite Nat.add_0_r.
  - intros i Hi. rewrite renamed_draw_cols_new. unfold new_cols, col_add.
    destruct (firstn i (iteration_n_draws H n_draws)) eqn:E.
    + exfalso. apply (f_equal (@List.length nat)) in E.
      rewrite length_firstn, iteration_n_draws_shape, length_app, repeat_length in E.
      simpl in E. lia.
    + reflexivity.
  - reflexivity.
  - vm_compute. intuition discriminate.
Qed.

(* ------------------------------------------------------------------ *)
(** ** Tail blanking *)

Section BlankingProofs.

Variable V : Type.

Abbreviation notnan := (notnan V).
Abbreviation count_notnan := (count_notnan V).

Lemma argwhere_from_ge (k p : nat) (l : list (option V)) :
  In p (argwhere_from V k l) -> k <= p.
Proof.
  revert k; induction l as [|x t IH]; simpl; [tauto|].
  intros k Hp. destruct (notnan x); [destruct Hp as [<-|Hp]; [lia|]|];
    apply IH in Hp; lia.
Qed.

Lemma argwhere_from_length (k : nat) (l : list (option V)) :
  List.length (argwhere_from V k l) = count_notnan l.
Proof.
  unfold count_notnan. revert k; induction l as [|x t IH]; intro k; simpl; [reflexivity|].
  destruct (notnan x); simpl; auto.
Qed.

Lemma in_skipn_in {A} (n : nat) (x : A) (l : list A) : In x (skipn n l) -> In x l.
Proof.
  revert l; induction n; intros [|y l]; simpl; auto.
Qed.

Lemma existsb_eqb_in (p : nat) (xs : list nat) : existsb (Nat.eqb p) xs = true <-> In p xs.
Proof.
  rewrite existsb_exists. split.
  - intros (y & Hy & E). apply Nat.eqb_eq in E. now subst.
  - intro H. exists p. split; [exact H | apply Nat.eqb_refl].
Qed.

(** Only the positions from [k] on matter to [set_nan_from k]. *)
Lemma set_nan_from_ext (k : nat) (idx1 idx2 : list nat) (l : list (option V)) :
  (forall p, k <= p -> existsb (Nat.eqb p) idx1 = existsb (Nat.eqb p) idx2) ->
  set_nan_from V k idx1 l = set_nan_from V k idx2 l.
Proof.
  revert k; induction l as [|x t IH]; intros k Hext; simpl; [reflexivity|].
  rewrite (Hext k) by lia. f_equal. apply IH. intros p Hp. apply Hext. lia.
Qed.

Lemma count_notnan_cons (x : option V) (t : list (option V)) :
  count_notnan (x :: t) = (if notnan x then 1 else 0) + count_notnan t.
Proof. unfold count_notnan. simpl. now destruct (notnan x). Qed.

Lemma count_notnan_app (a b : list (option V)) :
  count_notnan (a ++ b) = count_notnan a + count_notnan b.
Proof. unfold count_notnan. now rewrite filter_app, length_app. Qed.

(** Blanking all non-missing values from the [j]-th one on (counting from
    0), position by position. *)
Lemma set_nan_from_skipn_nth (l : list (option V)) (k j i : nat) :
  nth_error (set_nan_from V k (skipn j (argwhere_from V k l)) l) i
  = match nth_error l i with
    | Some (Some v) => Some (if j <=? count_notnan (firstn i l) then None else Some v)
    | o => o
    end.
Proof.
  revert k j i; induction l as [|x t IH]; intros k j i; simpl.
  - now destruct i.
  - destruct x as [v|]; simpl.
    + destruct j as [|j]; simpl.
      * destruct i as [|i]; simpl.
        -- now rewrite Nat.eqb_refl.
        -- rewrite (set_nan_from_ext (S k) (k :: argwhere_from V (S k) t)
                      (skipn 0 (argwhere_from V (S k) t))).
           ++ rewrite IH. destruct (nth_error t i) as [[w|]|]; reflexivity.
           ++ intros p Hp. simpl. replace (p =? k) with false by (symmetry; apply Nat.eqb_neq; lia).
              reflexivity.
      * assert (Hk : existsb (Nat.eqb k) (skipn j (argwhere_from V (S k) t)) = false).
        { apply Bool.not_true_iff_false. rewrite existsb_eqb_in. intro Hin.
          apply in_skipn_in, argwhere_from_ge in Hin. lia. }
        destruct i as [|i]; simpl.
        -- now rewrite Hk.
        -- rewrite IH. destruct (nth_error t i) as [[w|]|]; reflexivity.
    + destruct i as [|i]; simpl.
      * now destruct (existsb _ _).
      * rewrite IH. destruct (nth_error t i) as [[w|]|]; reflexivity.
Qed.

Lemma set_nan_from_skipn_count (l : list (option V)) (k j : nat) :
  count_notnan (set_nan_from V k (skipn j (argwhere_from V k l)) l)
  = Nat.min j (count_notnan l).
Proof.
  revert k j; induction l as [|x t IH]; intros k j; simpl.
  - unfold count_notnan. simpl. lia.
  - destruct x as [v|]; simpl.
    + destruct j as [|j]; simpl.
      * rewrite Nat.eqb_refl, count_notnan_cons. simpl.
        rewrite (set_nan_from_ext (S k) (k :: argwhere_from V (S k) t)
                   (skipn 0 (argwhere_from V (S k) t))).
        -- rewrite IH. lia.
        -- intros p Hp. simpl. replace (p =? k) with false by (symmetry; apply Nat.eqb_neq; lia).
           reflexivity.
      * assert (Hk : existsb (Nat.eqb k) (skipn j (argwhere_from V (S k) t)) = false).
        { apply Bool.not_true_iff_false. rewrite existsb_eqb_in. intro Hin.
          apply in_skipn_in, argwhere_from_ge in Hin. lia. }
        rewrite Hk, !count_notnan_cons, IH. unfold count_notnan in *. simpl. lia.
    + rewrite !count_notnan_cons. simpl. rewrite IH.
      now destruct (existsb _ _).
Qed.

Lemma set_nan_from_length (k : nat) (idx : list nat) (l : list (option V)) :
  List.length (set_nan_from V k idx l) = List.length l.
Proof. revert k; induction l; simpl; auto. Qed.

Lemma drop_days_length (l : list (option V)) (h : nat) :
  List.length (drop_days_by_indicator V l h) = List.length l.
Proof.
  unfold drop_days_by_indicator. destruct (0 <? h); [apply set_nan_from_length | reflexivity].
Qed.

(** Non-missing values before, at and after a non-missing position. *)
Lemma count_notnan_split (l : list (option V)) (i : nat) (v : V) :
  nth_error l i = Some (Some v) ->
  count_notnan (firstn i l) + S (count_notnan (skipn (S i) l)) = count_notnan l.
Proof.
  intro Hi.
  rewrite <- (firstn_skipn i l) at 3. rewrite count_notnan_app.
  f_equal.
  revert i Hi; induction l as [|x t IH]; intros [|i] Hi; simpl in *; try discriminate.
  - injection Hi as ->. rewrite count_notnan_cons. reflexivity.
  - now apply IH.
Qed.

(** [drop_days_by_indicator], position by position: a non-missing value is
    blanked iff fewer than [doy_holdout] non-missing values follow it. *)
Lemma drop_days_nth (l : list (option V)) (h i : nat) :
  nth_error (drop_days_by_indicator V l h) i
  = match nth_error l i with
    | Some (Some v) => Some (if count_notnan (skipn (S i) l) <? h then None else Some v)
    | o => o
    end.
Proof.
  unfold drop_days_by_indicator.
  destruct (Nat.ltb_spec 0 h) as [Hh|Hh].
  - unfold slice_last, argwhere. rewrite set_nan_from_skipn_nth, argwhere_from_length.
    destruct (nth_error l i) as [[v|]|] eqn:E; try reflexivity.
    pose proof (count_notnan_split l i v E).
    f_equal. destruct (Nat.leb_spec (count_notnan l - h) (count_notnan (firstn i l)));
      destruct (Nat.ltb_spec (count_notnan (skipn (S i) l)) h); try reflexivity; lia.
  - destruct (nth_error l i) as [[v|]|]; try reflexivity.
    replace (count_notnan (skipn (S i) l) <? h) with false
      by (symmetry; apply Nat.ltb_ge; lia). reflexivity.
Qed.

Lemma drop_days_count (l : list (option V)) (h : nat) :
  count_notnan (drop_days_by_indicator V l h) = count_notnan l - Nat.min h (count_notnan l).
Proof.
  unfold drop_days_by_indicator.
  destruct (Nat.ltb_spec 0 h) as [Hh|Hh].
  - unfold slice_last, argwhere. rewrite set_nan_from_skipn_count, argwhere_from_length. lia.
  - lia.
Qed.

Lemma drop_days_0 (l : list (option V)) : drop_days_by_indicator V l 0 = l.
Proof. reflexivity. Qed.

End BlankingProofs.

Section FrameProofs.

Variable V : Type.

Lemma get_set_ind_same (c : indicator) (v : option V) (r : row V) :
  get_ind V c (set_ind V c v r) = v.
Proof. now destruct c. Qed.

Lemma get_set_ind_other (c c' : indicator) (v : option V) (r : row V) :
  c <> c' -> get_ind V c (set_ind V c' v r) = get_ind V c r.
Proof. destruct c, c'; simpl; congruence. Qed.

Lemma set_col_length (c : indicator) (vals : list (option V)) (df : frame V) :
  List.length vals = List.length df -> List.length (set_col V c vals df) = List.length df.
Proof. intro E. unfold set_col. rewrite length_map, length_combine. lia. Qed.

Lemma get_col_set_col_same (c : indicator) (vals : list (option V)) (df : frame V) :
  List.length vals = List.length df -> get_col V c (set_col V c vals df) = vals.
Proof.
  revert vals; induction df as [|r df IH]; intros [|v vals] E; simpl in *;
    try discriminate; try reflexivity.
  unfold get_col, set_col in *. simpl. rewrite get_set_ind_same. f_equal. apply IH. lia.
Qed.

Lemma get_col_set_col_other (c c' : indicator) (vals : list (option V)) (df : frame V) :
  c <> c' -> List.length vals = List.length df ->
  get_col V c (set_col V c' vals df) = get_col V c df.
Proof.
  intro Hc. revert vals; induction df as [|r df IH]; intros [|v vals] E; simpl in *;
    try discriminate; try reflexivity.
  unfold get_col, set_col in *. simpl. rewrite get_set_ind_other by exact Hc.
  f_equal. apply IH. lia.
Qed.

Lemma set_col_keys (c : indicator) (vals : list (option V)) (df : frame V) :
  List.length vals = List.length df ->
  map (@Date V) (set_col V c vals df) = map (@Date V) df
  /\ map (@location_id V) (set_col V c vals df) = map (@location_id V) df.
Proof.
  revert vals; induction df as [|r df IH]; intros [|v vals] E; simpl in *;
    try discriminate; try (split; reflexivity).
  destruct (IH vals ltac:(lia)) as [IH1 IH2]. unfold set_col in *.
  simpl. rewrite IH1, IH2. destruct c; split; reflexivity.
Qed.

Lemma set_col_get_col (c : indicator) (df : frame V) :
  set_col V c (get_col V c df) df = df.
Proof.
  induction df as [|r df IH]; simpl; [reflexivity|].
  unfold set_col, get_col in *. simpl. rewrite IH. f_equal. destruct c, r; reflexivity.
Qed.

Lemma blank_step_length (h : nat) (df : frame V) (c : indicator) :
  List.length (blank_step V h df c) = List.length df.
Proof.
  unfold blank_step. apply set_col_length.
  rewrite drop_days_length. unfold get_col. apply length_map.
Qed.

Lemma blank_step_keys (h : nat) (df : frame V) (c : indicator) :
  map (@Date V) (blank_step V h df c) = map (@Date V) df
  /\ map (@location_id V) (blank_step V h df c) = map (@location_id V) df.
Proof.
  unfold blank_step. apply set_col_keys.
  rewrite drop_days_length. unfold get_col. apply length_map.
Qed.

Lemma blank_step_col (h : nat) (df : frame V) (c c' : indicator) :
  get_col V c (blank_step V h df c')
  = if indicator_eq c c' then drop_days_by_indicator V (get_col V c df) h
    else get_col V c df.
Proof.
  unfold blank_step.
  assert (L : List.length (drop_days_by_indicator V (get_col V c' df) h) = List.length df)
    by (rewrite drop_days_length; unfold get_col; apply length_map).
  destruct (indicator_eq c c') as [<-|Hne].
  - now apply get_col_set_col_same.
  - now apply get_col_set_col_other.
Qed.

Lemma blank_frame_steps (h : nat) (df : frame V) :
  blank_frame V h df
  = blank_step V h (blank_step V h (blank_step V h df DeathRate) ConfirmedCaseRate)
               HospitalizationRate.
Proof. reflexivity. Qed.

Lemma blank_frame_col (h : nat) (df : frame V) (c : indicator) :
  get_col V c (blank_frame V h df) = drop_days_by_indicator V (get_col V c df) h.
Proof.
  rewrite blank_frame_steps, !blank_step_col.
  destruct c; simpl; reflexivity.
Qed.

Lemma blank_frame_keys (h : nat) (df : frame V) :
  map (@Date V) (blank_frame V h df) = map (@Date V) df
  /\ map (@location_id V) (blank_frame V h df) = map (@location_id V) df.
Proof.
  rewrite blank_frame_steps.
  destruct (blank_step_keys h df DeathRate) as [A1 A2].
  destruct (blank_step_keys h (blank_step V h df DeathRate) ConfirmedCaseRate) as [B1 B2].
  destruct (blank_step_keys h (blank_step V h (blank_step V h df DeathRate) ConfirmedCaseRate)
              HospitalizationRate) as [C1 C2].
  split; congruence.
Qed.

Lemma blank_frame_0 (df : frame V) : blank_frame V 0 df = df.
Proof.
  rewrite blank_frame_steps. unfold blank_step. rewrite !drop_days_0, !set_col_get_col.
  reflexivity.
Qed.

End FrameProofs.

(** C3: tail blanking of each indicator column (lines 35-37).  Dates and
    locations are untouched; each column of the result depends only on the
    same column of the input ([drop_days_by_indicator] of it); a
    non-missing value is blanked iff fewer than [h] non-missing values of
    its column follow it, so exactly [min(h, m)] of the [m] non-missing
    values go, the most recent ones, and [h = 0] changes nothing. *)
Theorem blank_frame_spec (V : Type) (h : nat) (df : frame V) :
  let df' := blank_frame V h df in
  map (@Date V) df' = map (@Date V) df
  /\ map (@location_id V) df' = map (@location_id V) df
  /\ (forall c, get_col V c df' = drop_days_by_indicator V (get_col V c df) h)
  /\ (forall c i,
        nth_error (get_col V c df') i
        = match nth_error (get_col V c df) i with
          | Some (Some v) =>
              Some (if count_notnan V (skipn (S i) (get_col V c df)) <? h then None else Some v)
          | o => o
          end)
  /\ (forall c,
        count_notnan V (get_col V c df')
        = count_notnan V (get_col V c df) - Nat.min h (count_notnan V (get_col V c df)))
  /\ (h = 0 -> df' = df).
Proof.
  cbv zeta. destruct (blank_frame_keys V h df) as [K1 K2].
  split; [exact K1|]. split; [exact K2|]. split; [|split; [|split]].
  - apply blank_frame_col.
  - intros c i. rewrite blank_frame_col. apply drop_days_nth.
  - intro c. rewrite blank_frame_col. apply drop_days_count.
  - intros ->. apply blank_frame_0.
Qed.

(* ------------------------------------------------------------------ *)
(** ** [model_iteration] works on a copy *)

Section StoreProofs.

Variable V : Type.

Lemma nth_app_last {A} (s : list A) (x d : A) : nth (List.length s) (s ++ [x])%list d = x.
Proof. rewrite app_nth2, Nat.sub_diag by lia. reflexivity. Qed.

Lemma list_set_app_last {A} (s : list A) (x y : A) :
  list_set (s ++ [x])%list (List.length s) y = (s ++ [y])%list.
Proof. induction s; simpl; [reflexivity | now rewrite IHs]. Qed.

Lemma set_col_idem (c : indicator) (vals : list (option V)) (df : frame V) :
  List.length vals = List.length df ->
  set_col V c vals (set_col V c vals df) = set_col V c vals df.
Proof.
  intro E. rewrite <- (get_col_set_col_same V c vals df E) at 1.
  apply set_col_get_col.
Qed.

Lemma for_each_cons {A} (x : A) (xs : list A) (f : A -> M V unit) (st : store V) :
  for_each V (x :: xs) f st = for_each V xs f (snd (f x st)).
Proof. simpl. unfold bind. now destruct (f x st) as [[] st']. Qed.

(** One pass of the loop against the copy at the end of the store. *)
Lemma blank_one (h : nat) (c : indicator) (s : store V) (f : frame V) :
  bind V (drop_days_view V (List.length s) c h) (assign_col V (List.length s) c)
       (s ++ [f])%list
  = (tt, (s ++ [blank_step V h f c])%list).
Proof.
  unfold bind, drop_days_view, assign_col, deref, write, bind, ret.
  rewrite nth_app_last, list_set_app_last, nth_app_last, list_set_app_last.
  unfold blank_step. rewrite set_col_idem; [reflexivity|].
  rewrite drop_days_length; unfold get_col; apply length_map.
Qed.

(** The loop of lines 36-37 run against the copy at the end of the store. *)
Lemma for_each_blank (h : nat) (cs : list indicator) (s : store V) (f : frame V) :
  for_each V cs (fun c => bind V (drop_days_view V (List.length s) c h)
                               (assign_col V (List.length s) c)) (s ++ [f])%list
  = (tt, (s ++ [fold_left (blank_step V h) cs f])%list).
Proof.
  revert f; induction cs as [|c cs IH]; intro f; [reflexivity|].
  rewrite for_each_cons, blank_one. apply IH.
Qed.

Lemma model_iteration_data_eq (r : ref) (h : nat) (s : store V) :
  model_iteration_data V r h s
  = (S (List.length s),
     (s ++ [blank_frame V h (nth r s []); drop_empty_rows V (blank_frame V h (nth r s []))])%list).
Proof.
  unfold model_iteration_data, copy, bind at 1. unfold bind at 1, deref, alloc.
  unfold bind at 1. rewrite for_each_blank.
  unfold bind, deref, alloc. rewrite nth_app_last, length_app. simpl.
  rewrite <- app_assoc. do 2 f_equal. lia.
Qed.

Lemma map_m_iterations (r : ref) (hs : list nat) (s : store V) :
  r < List.length s ->
  let '(refs, s') := map_m V (fun h => model_iteration_data V r h) hs s in
  (exists ext, s' = (s ++ ext)%list)
  /\ map (fun k => nth k s' []) refs
     = map (fun h => drop_empty_rows V (blank_frame V h (nth r s []))) hs.
Proof.
  revert s; induction hs as [|h hs IH]; intros s Hr.
  - simpl. split; [exists []; now rewrite app_nil_r | reflexivity].
  - simpl. unfold bind at 1. rewrite model_iteration_data_eq.
    set (s1 := (s ++ _)%list).
    assert (Hr1 : r < List.length s1) by (unfold s1; rewrite length_app; lia).
    assert (Hn1 : nth r s1 [] = nth r s []) by (unfold s1; now rewrite app_nth1).
    specialize (IH s1 Hr1).
    unfold bind at 1.
    destruct (map_m V (fun h0 => model_iteration_data V r h0) hs s1) as [refs s'] eqn:E.
    destruct IH as [[ext Hext] Hmap].
    unfold ret. split.
    + exists ((blank_frame V h (nth r s []) :: drop_empty_rows V (blank_frame V h (nth r s [])) :: ext)).
      rewrite Hext. unfold s1. rewrite <- app_assoc. reflexivity.
    + simpl. rewrite Hmap, Hn1. f_equal.
      rewrite Hext. unfold s1. rewrite <- app_assoc, app_nth2 by lia.
      replace (S (List.length s) - List.length s) with 1 by lia. reflexivity.
Qed.

End StoreProofs.

(** C9: [model_iteration] leaves the frame it is given unchanged (its
    writes go to the copy of line 34 and to fresh frames), and the [H+1]
    iterations of [run_models] on one [model_data] each hand the first
    stage [drop_empty_rows (blank_frame h df)] of the original frame [df],
    never of an earlier iteration's output. *)
Theorem run_iterations_use_original (V : Type) (s : store V) (r : ref) (H : nat) :
  r < List.length s ->
  (forall h, exists ext, snd (model_iteration_data V r h s) = (s ++ ext)%list)
  /\ let '(refs, s') := run_iterations V r H s in
     (exists ext, s' = (s ++ ext)%list)
     /\ map (fun k => nth k s' []) refs
        = map (fun h => drop_empty_rows V (blank_frame V h (nth r s []))) (holdout_depths H).
Proof.
  intro Hr. split.
  - intro h. rewrite model_iteration_data_eq. simpl. eexists. reflexivity.
  - apply map_m_iterations. exact Hr.
Qed.

Lemma run_iterations_use_original_witness :
  0 < List.length [[mkRow 1%Z 1%Z (Some 1%Z) None (Some 2%Z) None]]
  /\ ((forall h, exists ext,
          snd (model_iteration_data Z 0 h [[mkRow 1%Z 1%Z (Some 1%Z) None (Some 2%Z) None]])
          = ([[mkRow 1%Z 1%Z (Some 1%Z) None (Some 2%Z) None]] ++ ext)%list)
      /\ let '(refs, s') := run_iterations Z 0 2 [[mkRow 1%Z 1%Z (Some 1%Z) None (Some 2%Z) None]] in
         (exists ext, s' = ([[mkRow 1%Z 1%Z (Some 1%Z) None (Some 2%Z) None]] ++ ext)%list)
         /\ map (fun k => nth k s' []) refs
            = map (fun h => drop_empty_rows Z
                     (blank_frame Z h (nth 0 [[mkRow 1%Z 1%Z (Some 1%Z) None (Some 2%Z) None]] [])))
                  (holdout_depths 2)).
Proof.
  split; [simpl; lia|].
  apply (run_iterations_use_original Z [[mkRow 1%Z 1%Z (Some 1%Z) None (Some 2%Z) None]] 0 2).
  simpl; lia.
Defined.

(* ------------------------------------------------------------------ *)
(** ** The NaN capture step *)

Section ContinuityProofs.

Variable V : Type.

Lemma in_insert_key (x k : Z) (ks : list Z) : In x (insert_key k ks) <-> x = k \/ In x ks.
Proof.
  induction ks as [|k' ks IH]; simpl; [intuition congruence|].
  destruct (Z.ltb_spec k k'); simpl; [intuition congruence|].
  destruct (Z.eqb_spec k k'); simpl; [subst; intuition congruence|].
  rewrite IH. intuition congruence.
Qed.

Lemma in_group_keys (x : Z) (ks : list Z) : In x (group_keys ks) <-> In x ks.
Proof.
  induction ks as [|k ks IH]; simpl; [tauto|].
  rewrite in_insert_key, IH. intuition.
Qed.

Lemma lookup_key_in (l v : Z) (s : list (Z * Z)) : lookup_key l s = Some v -> In l (map fst s).
Proof.
  induction s as [|[k w] s IH]; simpl; [discriminate|].
  destruct (Z.eqb_spec k l); auto.
Qed.

Lemma lookup_key_flat_map (f : Z -> option Z) (ks : list Z) (l : Z) :
  lookup_key l (flat_map (fun k => match f k with Some m => [(k, m)] | None => [] end) ks)
  = if existsb (Z.eqb l) ks then f l else None.
Proof.
  induction ks as [|k ks IH]; simpl; [reflexivity|].
  destruct (Z.eqb_spec l k) as [->|Hne]; simpl.
  - destruct (f k) eqn:E; simpl; [now rewrite Z.eqb_refl|].
    rewrite IH. now destruct (existsb _ _).
  - destruct (f k); simpl; [|exact IH].
    replace (k =? l)%Z with false by (symmetry; apply Z.eqb_neq; congruence).
    exact IH.
Qed.

Lemma in_dates_of (d l : Z) (rows : list (drow V)) :
  In d (dates_of V l rows) <-> exists r, In r rows /\ sd_location_id V r = l /\ sd_date V r = d.
Proof.
  unfold dates_of. rewrite in_map_iff. split.
  - intros (r & <- & Hr). apply filter_In in Hr as [Hr E]. apply Z.eqb_eq in E. eauto.
  - intros (r & Hr & E & <-). exists r. split; [reflexivity|].
    apply filter_In. split; [exact Hr | now apply Z.eqb_eq].
Qed.

Lemma existsb_eqb_in_Z (l : Z) (ks : list Z) : existsb (Z.eqb l) ks = true <-> In l ks.
Proof.
  rewrite existsb_exists. split.
  - intros (y & Hy & E). apply Z.eqb_eq in E. now subst.
  - intro H. exists l. split; [exact H | apply Z.eqb_refl].
Qed.

Lemma dates_of_nil (l : Z) (rows : list (drow V)) :
  ~ In l (map (@sd_location_id V) rows) -> dates_of V l rows = [].
Proof.
  intro Hn. destruct (dates_of V l rows) as [|d ds] eqn:E; [reflexivity|].
  exfalso. assert (Hd : In d (dates_of V l rows)) by (rewrite E; now left).
  apply in_dates_of in Hd as (r & Hr & <- & _). apply Hn. now apply in_map.
Qed.

Lemma lookup_group_date_min (l : Z) (rows : list (drow V)) :
  lookup_key l (group_date_min V rows) = list_min (dates_of V l rows).
Proof.
  unfold group_date_min. rewrite lookup_key_flat_map.
  destruct (existsb (Z.eqb l) _) eqn:E; [reflexivity|].
  rewrite dates_of_nil; [reflexivity|].
  intro Hin. rewrite <- in_group_keys, <- existsb_eqb_in_Z in Hin. congruence.
Qed.

Lemma lookup_group_date_max (l : Z) (rows : list (drow V)) :
  lookup_key l (group_date_max V rows) = list_max (dates_of V l rows).
Proof.
  unfold group_date_max. rewrite lookup_key_flat_map.
  destruct (existsb (Z.eqb l) _) eqn:E; [reflexivity|].
  rewrite dates_of_nil; [reflexivity|].
  intro Hin. rewrite <- in_group_keys, <- existsb_eqb_in_Z in Hin. congruence.
Qed.

Lemma in_notnull_entries (F : Z -> option Z) (ks : list Z) (l g : Z) :
  In (l, g) (notnull_entries (map (fun k => (k, F k)) ks)) <-> In l ks /\ F l = Some g.
Proof.
  induction ks as [|k ks IH]; simpl; [tauto|].
  destruct (F k) as [g'|] eqn:E; simpl; rewrite IH; split.
  - intros [H|H]; [injection H as -> ->; auto | tauto].
  - intros [[->|H] H']; [left; congruence | right; auto].
  - tauto.
  - intros [[->|H] H']; [congruence | auto].
Qed.

(** The entries of [date_diffs]: the locations with both a missing and a
    complete row, with [min(NaN dates) - max(non-NaN dates)]. *)
Lemma in_date_diffs (nans kept : list (drow V)) (l g : Z) :
  In (l, g) (date_diffs V nans kept)
  <-> exists a b, list_min (dates_of V l nans) = Some a
                  /\ list_max (dates_of V l kept) = Some b /\ g = (a - b)%Z.
Proof.
  unfold date_diffs, sub_aligned. rewrite in_notnull_entries.
  rewrite lookup_group_date_min, lookup_group_date_max. split.
  - intros [_ H]. destruct (list_min _) as [a|], (list_max _) as [b|]; try discriminate.
    injection H as <-. eauto.
  - intros (a & b & Ha & Hb & ->). rewrite Ha, Hb. split; [|reflexivity].
    apply in_group_keys, in_or_app. left.
    apply (lookup_key_in l a). now rewrite lookup_group_date_min.
Qed.

Lemma fold_left_min_spec (t : list Z) (x : Z) :
  In (fold_left Z.min t x) (x :: t) /\ forall y, In y (x :: t) -> (fold_left Z.min t x <= y)%Z.
Proof.
  revert x; induction t as [|z t IH]; intro x; simpl.
  - split; [now left | intros y [<-|[]]; lia].
  - destruct (IH (Z.min x z)) as [H1 H2]. split.
    + set (w := fold_left Z.min t (Z.min x z)) in *.
      destruct H1 as [E|E]; [|simpl; tauto].
      destruct (Z.min_spec x z) as [[_ Hm]|[_ Hm]]; rewrite Hm in E; simpl; tauto.
    + intros y Hy. assert (Hle : (Z.min x z <= y)%Z \/ In y t) by (destruct Hy as [<-|[<-|Hy]]; [lia|lia|tauto]).
      destruct Hle as [Hle|Hin]; [specialize (H2 (Z.min x z) (or_introl eq_refl)); lia|].
      apply H2. now right.
Qed.

Lemma fold_left_max_spec (t : list Z) (x : Z) :
  In (fold_left Z.max t x) (x :: t) /\ forall y, In y (x :: t) -> (y <= fold_left Z.max t x)%Z.
Proof.
  revert x; induction t as [|z t IH]; intro x; simpl.
  - split; [now left | intros y [<-|[]]; lia].
  - destruct (IH (Z.max x z)) as [H1 H2]. split.
    + set (w := fold_left Z.max t (Z.max x z)) in *.
      destruct H1 as [E|E]; [|simpl; tauto].
      destruct (Z.max_spec x z) as [[_ Hm]|[_ Hm]]; rewrite Hm in E; simpl; tauto.
    + intros y Hy. assert (Hle : (y <= Z.max x z)%Z \/ In y t) by (destruct Hy as [<-|[<-|Hy]]; [lia|lia|tauto]).
      destruct Hle as [Hle|Hin]; [specialize (H2 (Z.max x z) (or_introl eq_refl)); lia|].
      apply H2. now right.
Qed.

Lemma list_min_spec (xs : list Z) (m : Z) :
  list_min xs = Some m -> In m xs /\ forall y, In y xs -> (m <= y)%Z.
Proof. destruct xs as [|x t]; simpl; [discriminate|]. intros [= <-]. apply fold_left_min_spec. Qed.

Lemma list_max_spec (xs : list Z) (m : Z) :
  list_max xs = Some m -> In m xs /\ forall y, In y xs -> (y <= m)%Z.
Proof. destruct xs as [|x t]; simpl; [discriminate|]. intros [= <-]. apply fold_left_max_spec. Qed.

Lemma list_min_some (xs : list Z) (y : Z) : In y xs -> exists m, list_min xs = Some m.
Proof. destruct xs; simpl; [tauto | eauto]. Qed.

Lemma list_max_some (xs : list Z) (y : Z) : In y xs -> exists m, list_max xs = Some m.
Proof. destruct xs; simpl; [tauto | eauto]. Qed.

Lemma filter_filter_andb {A} (p q : A -> bool) (l : list A) :
  List.filter p (List.filter q l) = List.filter (fun x => p x && q x) l.
Proof.
  induction l as [|x l IH]; simpl; [reflexivity|].
  destruct (q x) eqn:Eq; simpl; destruct (p x) eqn:Ep; simpl; rewrite ?Ep, IH; reflexivity.
Qed.

End ContinuityProofs.

Lemma nan_rows_nil (V : Type) (rows : list (drow V)) (r : drow V) :
  List.filter (nan_row V) rows = [] -> In r rows -> nan_row V r = false.
Proof.
  intros E Hr. destruct (nan_row V r) eqn:Hn; [|reflexivity].
  assert (Hin : In r (List.filter (nan_row V) rows)) by (apply filter_In; auto).
  rewrite E in Hin. contradiction.
Qed.

(** C4: a location whose NaN rows all come strictly after its latest
    non-NaN row has a positive gap, if any, and when the run continues it
    loses exactly its NaN rows; a location with a NaN row dated before one
    of its non-NaN rows has a negative gap and the step raises. *)
Theorem capture_nans_trailing_vs_interior (V : Type) (rows : list (drow V)) (l : Z) :
  let nans := List.filter (nan_row V) rows in
  let kept := List.filter (fun r => negb (nan_row V r)) rows in
  ((exists r, In r rows /\ sd_location_id V r = l /\ nan_row V r = false) ->
   (forall r r', In r rows -> In r' rows -> sd_location_id V r = l -> sd_location_id V r' = l ->
      nan_row V r = true -> nan_row V r' = false -> (sd_date V r' < sd_date V r)%Z) ->
   (forall g, In (l, g) (date_diffs V nans kept) -> (0 < g)%Z)
   /\ (forall kept' nl, snd (capture_nans V rows) = Continue V kept' nl ->
        List.filter (fun r => (sd_location_id V r =? l)%Z) kept'
        = List.filter (fun r => (sd_location_id V r =? l)%Z && negb (nan_row V r)) rows))
  /\ ((exists r r', In r rows /\ In r' rows /\ sd_location_id V r = l /\ sd_location_id V r' = l
        /\ nan_row V r = true /\ nan_row V r' = false /\ (sd_date V r < sd_date V r')%Z) ->
      (exists g, In (l, g) (date_diffs V nans kept) /\ (g < 0)%Z)
      /\ exists files msg, capture_nans V rows = (files, Raise V msg)).
Proof.
  cbv zeta. split.
  - intros _ Htrail. split.
    + intros g Hg. apply in_date_diffs in Hg as (a & b & Ha & Hb & ->).
      destruct (list_min_spec _ _ Ha) as [Ha' _]. destruct (list_max_spec _ _ Hb) as [Hb' _].
      apply in_dates_of in Ha' as (r & Hr & Hrl & <-). apply in_dates_of in Hb' as (r' & Hr' & Hrl' & <-).
      apply filter_In in Hr as [Hr Hn]. apply filter_In in Hr' as [Hr' Hn'].
      apply Bool.negb_true_iff in Hn'.
      specialize (Htrail r r' Hr Hr' Hrl Hrl' Hn Hn'). lia.
    + intros kept' nl. unfold capture_nans.
      destruct (List.filter (nan_row V) rows) as [|d ds] eqn:En.
      * simpl. intros [= <- _]. apply filter_ext_in. intros r Hr.
        rewrite (nan_rows_nil V rows r En Hr). now rewrite Bool.andb_true_r.
      * destruct (existsb _ _); simpl; [discriminate|].
        intros [= <- _]. apply filter_filter_andb.
  - intros (r & r' & Hr & Hr' & Hrl & Hrl' & Hn & Hn' & Hlt).
    assert (Hd : In (sd_date V r) (dates_of V l (List.filter (nan_row V) rows)))
      by (apply in_dates_of; exists r; repeat split; auto; apply filter_In; auto).
    assert (Hd' : In (sd_date V r') (dates_of V l (List.filter (fun r => negb (nan_row V r)) rows)))
      by (apply in_dates_of; exists r'; repeat split; auto; apply filter_In; split; auto;
          now rewrite Hn').
    destruct (list_min_some _ _ Hd) as [a Ha]. destruct (list_max_some _ _ Hd') as [b Hb].
    pose proof (proj2 (list_min_spec _ _ Ha) _ Hd). pose proof (proj2 (list_max_spec _ _ Hb) _ Hd').
    assert (Hg : In (l, (a - b)%Z) (date_diffs V (List.filter (nan_row V) rows)
                                     (List.filter (fun r => negb (nan_row V r)) rows)))
      by (apply in_date_diffs; eauto).
    split; [exists (a - b)%Z; split; [exact Hg | lia]|].
    unfold capture_nans.
    destruct (List.filter (nan_row V) rows) as [|d ds] eqn:En.
    + exfalso. rewrite (nan_rows_nil V rows r En Hr) in Hn. discriminate.
    + replace (existsb _ _) with true.
      * eexists. eexists. reflexivity.
      * symmetry. apply existsb_exists. exists (l, (a - b)%Z). split; [exact Hg|].
        apply Z.ltb_lt. lia.
Qed.

(** C5 (code_bug): whenever the step raises, the one file written before is
    [problem_location_report.csv], holding [date_diffs] written with
    [index=False]: its only column is the gap (the series' name [date]); the
    [location_id] index is not written.  For a location 7 whose NaN row (day 1)
    precedes its non-NaN row (day 2) the report is the single value [-1]. *)
Theorem problem_location_report_without_ids :
  (forall (V : Type) (rows : list (drow V)) files msg,
     capture_nans V rows = (files, Raise V msg) ->
     let dd := date_diffs V (List.filter (nan_row V) rows)
                            (List.filter (fun r => negb (nan_row V r)) rows) in
     (exists l g, In (l, g) dd /\ (g < 0)%Z)
     /\ files = [("problem_location_report.csv", mkTable ["date"] (map (fun '(_, g) => [g]) dd))])
  /\ capture_nans unit [mkDrow 7%Z 1%Z [None]; mkDrow 7%Z 2%Z [Some tt]]
     = ([("problem_location_report.csv", mkTable ["date"] [[(-1)%Z]])],
        Raise unit "Dropping NaNs in middle of time series (see problem_location_report.csv)").
Proof.
  split; [|reflexivity].
  intros V rows files msg. unfold capture_nans. cbv zeta.
  destruct (List.filter (nan_row V) rows) as [|d ds] eqn:En; [discriminate|].
  destruct (existsb _ _) eqn:Ex; [|discriminate].
  intros [= <- _]. split; [|reflexivity].
  apply existsb_exists in Ex as ([l g] & Hin & Hg). apply Z.ltb_lt in Hg. eauto.
Qed.

(** C10: a location all of whose rows have a missing draw gets no entry in
    [date_diffs] (so it never makes the step raise and is not reported), and
    when the run continues none of its rows is kept and its id is not in
    [nan_locations]. *)
Theorem capture_nans_all_nan_location (V : Type) (rows : list (drow V)) (l : Z) :
  (exists r, In r rows /\ sd_location_id V r = l) ->
  (forall r, In r rows -> sd_location_id V r = l -> nan_row V r = true) ->
  (forall g, ~ In (l, g) (date_diffs V (List.filter (nan_row V) rows)
                                       (List.filter (fun r => negb (nan_row V r)) rows)))
  /\ (forall kept nl, snd (capture_nans V rows) = Continue V kept nl ->
        (forall r, In r kept -> sd_location_id V r <> l) /\ ~ In l nl).
Proof.
  intros (r0 & Hr0 & Hl0) Hall.
  assert (Hno : forall g, ~ In (l, g) (date_diffs V (List.filter (nan_row V) rows)
                                        (List.filter (fun r => negb (nan_row V r)) rows))).
  { intros g Hg. apply in_date_diffs in Hg as (a & b & _ & Hb & _).
    destruct (list_max_spec _ _ Hb) as [Hb' _].
    apply in_dates_of in Hb' as (r & Hr & Hrl & _).
    apply filter_In in Hr as [Hr Hn]. rewrite (Hall r Hr Hrl) in Hn. discriminate. }
  split; [exact Hno|].
  intros kept nl. unfold capture_nans.
  destruct (List.filter (nan_row V) rows) as [|d ds] eqn:En.
  - exfalso. pose proof (nan_rows_nil V rows r0 En Hr0) as Hf.
    rewrite (Hall r0 Hr0 Hl0) in Hf. discriminate.
  - destruct (existsb _ _); simpl; [discriminate|].
    intros [= <- <-]. rewrite <- En. split.
    + intros r Hr Hrl. apply filter_In in Hr as [Hr Hn].
      rewrite (Hall r Hr Hrl) in Hn. discriminate.
    + intro Hin. apply in_map_iff in Hin as ([l' g] & Hl' & Hin). simpl in Hl'. subst l'.
      rewrite En in Hin. now apply (Hno g).
Qed.

Lemma capture_nans_all_nan_location_witness :
  (exists r, In r [mkDrow 7%Z 1%Z [@None unit]; mkDrow 8%Z 1%Z [Some tt]] /\ sd_location_id unit r = 7%Z)
  /\ (forall r, In r [mkDrow 7%Z 1%Z [@None unit]; mkDrow 8%Z 1%Z [Some tt]] ->
        sd_location_id unit r = 7%Z -> nan_row unit r = true)
  /\ ((forall g, ~ In (7%Z, g)
         (date_diffs unit (List.filter (nan_row unit) [mkDrow 7%Z 1%Z [@None unit]; mkDrow 8%Z 1%Z [Some tt]])
            (List.filter (fun r => negb (nan_row unit r)) [mkDrow 7%Z 1%Z [@None unit]; mkDrow 8%Z 1%Z [Some tt]])))
      /\ (forall kept nl,
            snd (capture_nans unit [mkDrow 7%Z 1%Z [@None unit]; mkDrow 8%Z 1%Z [Some tt]])
            = Continue unit kept nl ->
            (forall r, In r kept -> sd_location_id unit r <> 7%Z) /\ ~ In 7%Z nl)).
Proof.
  assert (H1 : exists r, In r [mkDrow 7%Z 1%Z [@None unit]; mkDrow 8%Z 1%Z [Some tt]]
                         /\ sd_location_id unit r = 7%Z)
    by (eexists; split; [left; reflexivity | reflexivity]).
  assert (H2 : forall r, In r [mkDrow 7%Z 1%Z [@None unit]; mkDrow 8%Z 1%Z [Some tt]] ->
                 sd_location_id unit r = 7%Z -> nan_row unit r = true)
    by (intros r [<-|[<-|[]]]; simpl; [reflexivity | discriminate]).
  split; [exact H1|]. split; [exact H2|].
  exact (capture_nans_all_nan_location unit _ 7%Z H1 H2).
Defined.

(* ------------------------------------------------------------------ *)
(** ** Daily deaths *)

Definition key_leP (a b : crow) : Prop := key_le a b = true.

Lemma key_le_total (a b : crow) : key_le a b = false -> key_le b a = true.
Proof.
  unfold key_le. intro E.
  apply Bool.orb_false_iff in E as [E1 E2]. apply Z.ltb_ge in E1.
  destruct (Z.eqb_spec (cr_location_id a) (cr_location_id b)) as [Eq|Ne].
  - simpl in E2. apply Z.leb_gt in E2.
    apply Bool.orb_true_iff. right. apply andb_true_intro.
    split; [apply Z.eqb_eq; lia | apply Z.leb_le; lia].
  - apply Bool.orb_true_iff. left. apply Z.ltb_lt. lia.
Qed.

Lemma key_le_trans (a b c : crow) : key_leP a b -> key_leP b c -> key_leP a c.
Proof.
  unfold key_leP, key_le. rewrite !Bool.orb_true_iff, !Bool.andb_true_iff,
    !Z.ltb_lt, !Z.eqb_eq, !Z.leb_le. lia.
Qed.

Lemma insert_row_hdrel (a r : crow) (rows : list crow) :
  HdRel key_leP a rows -> key_leP a r -> HdRel key_leP a (insert_row r rows).
Proof.
  destruct rows as [|r' rows]; simpl; intros Hh Har; [now constructor|].
  destruct (key_le r' r); constructor; [now inversion Hh | exact Har].
Qed.

Lemma insert_row_sorted (r : crow) (rows : list crow) :
  Sorted key_leP rows -> Sorted key_leP (insert_row r rows).
Proof.
  induction rows as [|r' rows IH]; simpl; intro Hs; [now repeat constructor|].
  destruct (key_le r' r) eqn:E.
  - inversion Hs as [|? ? Hs' Hh]; subst. constructor; [now apply IH|].
    now apply insert_row_hdrel.
  - constructor; [exact Hs|]. constructor. now apply key_le_total.
Qed.

Lemma sort_index_sorted (rows : list crow) : StronglySorted key_leP (sort_index rows).
Proof.
  apply Sorted_StronglySorted; [exact key_le_trans|].
  induction rows as [|r rows IH]; simpl; [constructor|]. now apply insert_row_sorted.
Qed.

Lemma in_insert_row (x r : crow) (rows : list crow) :
  In x (insert_row r rows) <-> x = r \/ In x rows.
Proof.
  induction rows as [|r' rows IH]; simpl; [intuition congruence|].
  destruct (key_le r' r); simpl; [rewrite IH|]; intuition congruence.
Qed.

Lemma in_sort_index (x : crow) (rows : list crow) : In x (sort_index rows) <-> In x rows.
Proof.
  induction rows as [|r rows IH]; simpl; [tauto|]. rewrite in_insert_row, IH. intuition congruence.
Qed.

Lemma strongly_sorted_filter {A} (R : A -> A -> Prop) (p : A -> bool) (l : list A) :
  StronglySorted R l -> StronglySorted R (List.filter p l).
Proof.
  induction l as [|x l IH]; simpl; intro Hs; [constructor|].
  inversion Hs as [|? ? Hs' Hf]; subst.
  destruct (p x); [constructor|]; auto.
  apply Forall_forall. intros y Hy. apply filter_In in Hy as [Hy _].
  now apply (proj1 (Forall_forall _ _) Hf).
Qed.

Lemma strongly_sorted_map {A B} (R : A -> A -> Prop) (S : B -> B -> Prop) (f : A -> B) (l : list A) :
  (forall a b, In a l -> In b l -> R a b -> S (f a) (f b)) ->
  StronglySorted R l -> StronglySorted S (map f l).
Proof.
  induction l as [|x l IH]; simpl; intros HRS Hs; [constructor|].
  inversion Hs as [|? ? Hs' Hf]; subst. constructor.
  - apply IH; [|exact Hs']. intros a b Ha Hb. apply HRS; now right.
  - apply Forall_forall. intros y Hy. apply in_map_iff in Hy as (b & <- & Hb).
    apply HRS; [now left | now right | ]. now apply (proj1 (Forall_forall _ _) Hf).
Qed.

Lemma insert_key_hdrel (a k : Z) (ks : list Z) :
  HdRel Z.lt a ks -> (a < k)%Z -> HdRel Z.lt a (insert_key k ks).
Proof.
  destruct ks as [|k' ks]; simpl; intros Hh Hak; [now constructor|].
  inversion Hh; subst.
  destruct (Z.ltb_spec k k'); [constructor; lia|].
  destruct (Z.eqb_spec k k'); constructor; lia.
Qed.

Lemma insert_key_sorted (k : Z) (ks : list Z) : Sorted Z.lt ks -> Sorted Z.lt (insert_key k ks).
Proof.
  induction ks as [|k' ks IH]; simpl; intro Hs; [now repeat constructor|].
  destruct (Z.ltb_spec k k'); [constructor; [exact Hs | constructor; lia]|].
  destruct (Z.eqb_spec k k'); [exact Hs|].
  inversion Hs as [|? ? Hs' Hh]; subst. constructor; [now apply IH|].
  apply insert_key_hdrel; [exact Hh | lia].
Qed.

Lemma group_keys_nodup (ks : list Z) : NoDup (group_keys ks).
Proof.
  assert (Hs : StronglySorted Z.lt (group_keys ks)).
  { apply Sorted_StronglySorted; [exact Z.lt_trans|].
    induction ks; simpl; [constructor|]. now apply insert_key_sorted. }
  induction Hs as [|k ks' Hs IH Hf]; constructor; [|exact IH].
  intro Hin. apply (proj1 (Forall_forall _ _) Hf) in Hin. lia.
Qed.

Lemma filter_all_true {A} (p : A -> bool) (l : list A) :
  (forall x, In x l -> p x = true) -> List.filter p l = l.
Proof.
  induction l as [|x l IH]; simpl; intro H; [reflexivity|].
  rewrite H by (now left). f_equal. apply IH. intros y Hy. apply H. now right.
Qed.

Lemma filter_all_false {A} (p : A -> bool) (l : list A) :
  (forall x, In x l -> p x = false) -> List.filter p l = [].
Proof.
  induction l as [|x l IH]; simpl; intro H; [reflexivity|].
  rewrite H by (now left). apply IH. intros y Hy. apply H. now right.
Qed.

Lemma group_rows_flat_map (f : Z -> list crow) (keys : list Z) (l : Z) :
  NoDup keys -> (forall k r, In r (f k) -> cr_location_id r = k) ->
  group_rows l (flat_map f keys) = if existsb (Z.eqb l) keys then f l else [].
Proof.
  unfold group_rows. intros Hnd Hf. induction Hnd as [|k keys Hk Hnd IH]; simpl; [reflexivity|].
  rewrite filter_app, IH.
  destruct (Z.eqb_spec l k) as [->|Hne]; simpl.
  - replace (existsb (Z.eqb k) keys) with false.
    + rewrite app_nil_r. apply filter_all_true. intros r Hr. apply Z.eqb_eq. now apply Hf.
    + symmetry. apply Bool.not_true_iff_false. rewrite existsb_eqb_in_Z. exact Hk.
  - rewrite filter_all_false; [reflexivity|].
    intros r Hr. apply Z.eqb_neq. rewrite (Hf k r Hr). congruence.
Qed.

Lemma diff_prepend_length (p : list Z) (m : list (list Z)) :
  List.length (diff_prepend p m) = List.length m.
Proof. revert p; induction m; simpl; auto. Qed.

Lemma diff_prepend_nth_0 (p : list Z) (m : list (list Z)) :
  nth_error (diff_prepend p m) 0
  = option_map (fun x => map (fun '(a, b) => (a - b)%Z) (combine x p)) (nth_error m 0).
Proof. destruct m; reflexivity. Qed.

Lemma diff_prepend_nth_S (p : list Z) (m : list (list Z)) (j : nat) :
  nth_error (diff_prepend p m) (S j)
  = match nth_error m j, nth_error m (S j) with
    | Some a, Some b => Some (map (fun '(u, v) => (u - v)%Z) (combine b a))
    | _, _ => None
    end.
Proof.
  revert p j; induction m as [|x t IH]; intros p j; [now destruct j|].
  simpl. destruct j as [|j].
  - destruct t; reflexivity.
  - rewrite IH. reflexivity.
Qed.

Lemma sub_zeros (v : list Z) (n : nat) :
  List.length v = n -> map (fun '(a, b) => (a - b)%Z) (combine v (zeros n)) = v.
Proof.
  intros <-. induction v as [|a v IH]; simpl; [reflexivity|].
  rewrite Z.sub_0_r. f_equal. exact IH.
Qed.

Lemma map_fst_combine' {A B C} (f : A -> C) (xs : list A) (ys : list B) :
  List.length xs = List.length ys -> map (fun p => f (fst p)) (combine xs ys) = map f xs.
Proof.
  revert ys; induction xs as [|x xs IH]; intros [|y ys] E; simpl in *; try discriminate; auto.
  f_equal. apply IH. lia.
Qed.

Lemma map_snd_combine' {A B} (xs : list A) (ys : list B) :
  List.length xs = List.length ys -> map snd (combine xs ys) = ys.
Proof.
  revert ys; induction xs as [|x xs IH]; intros [|y ys] E; simpl in *; try discriminate; auto.
  f_equal. apply IH. lia.
Qed.

(** The rows of one location in the daily table. *)
Lemma group_rows_daily_deaths (n : nat) (rows : list crow) (l : Z) :
  let x := group_rows l (sort_index rows) in
  group_rows l (daily_deaths n rows)
  = map (fun '(r, v) => mkCrow l (cr_date r) v)
        (combine x (diff_prepend (zeros n) (map cr_draws x))).
Proof.
  cbv zeta. unfold daily_deaths. cbv zeta.
  rewrite group_rows_flat_map.
  - destruct (existsb (Z.eqb l) _) eqn:E; [reflexivity|].
    replace (group_rows l (sort_index rows)) with (@nil crow); [reflexivity|].
    symmetry. apply filter_all_false. intros r Hr. apply Z.eqb_neq. intros <-.
    apply Bool.not_true_iff_false in E. apply E.
    apply existsb_eqb_in_Z, in_group_keys, in_map. exact Hr.
  - apply group_keys_nodup.
  - intros k r Hr. apply in_map_iff in Hr as ([r' v] & <- & _). reflexivity.
Qed.

(** C6: per location, the daily table lists the location's rows in date
    order with unchanged dates; its first row equals the cumulative row
    (implicit zero predecessor) and each later row is the difference with
    the row before; every per-draw infection file row is a row of the daily
    table with its date moved back by [DURATION + 11 = 23] days; and
    [[5, 12, 20]] gives [[5, 7, 8]]. *)
Theorem daily_deaths_first_difference (n : nat) (rows : list crow) (md_locs : list Z) (l : Z) :
  (forall r, In r rows -> List.length (cr_draws r) = n) ->
  let x := group_rows l (sort_index rows) in
  let out := group_rows l (daily_deaths n rows) in
  StronglySorted Z.le (map cr_date x)
  /\ map cr_date out = map cr_date x
  /\ nth_error (map cr_draws out) 0 = option_map cr_draws (nth_error x 0)
  /\ (forall j a b, nth_error x j = Some a -> nth_error x (S j) = Some b ->
        nth_error (map cr_draws out) (S j)
        = Some (map (fun '(u, v) => (u - v)%Z) (combine (cr_draws b) (cr_draws a))))
  /\ infection_lag = 23%Z
  /\ (forall d e, d < n -> In e (nth d (infection_files n rows md_locs) []) ->
        exists r, In r (daily_deaths n rows)
                  /\ e = (cr_location_id r, (cr_date r - infection_lag)%Z, nth d (cr_draws r) 0%Z))
  /\ daily_deaths 1 [mkCrow 1 1 [5%Z]; mkCrow 1 2 [12%Z]; mkCrow 1 3 [20%Z]]
     = [mkCrow 1 1 [5%Z]; mkCrow 1 2 [7%Z]; mkCrow 1 3 [8%Z]].
Proof.
  intro Hw. cbv zeta. rewrite group_rows_daily_deaths.
  set (x := group_rows l (sort_index rows)).
  assert (Hx : forall r, In r x -> List.length (cr_draws r) = n).
  { intros r Hr. apply filter_In in Hr as [Hr _]. apply (proj1 (in_sort_index _ _)) in Hr. apply Hw; exact Hr. }
  assert (Hl : List.length x = List.length (diff_prepend (zeros n) (map cr_draws x)))
    by (now rewrite diff_prepend_length, length_map).
  assert (Hd : map cr_draws (map (fun '(r, v) => mkCrow l (cr_date r) v)
                 (combine x (diff_prepend (zeros n) (map cr_draws x))))
               = diff_prepend (zeros n) (map cr_draws x)).
  { rewrite map_map. etransitivity; [|exact (map_snd_combine' x _ Hl)].
    apply map_ext. now intros [r v]. }
  split; [|split; [|split; [|split; [|split; [|split]]]]].
  - apply (strongly_sorted_map key_leP).
    + intros a b Ha Hb Hab. apply filter_In in Ha as [_ Ha]. apply filter_In in Hb as [_ Hb].
      apply Z.eqb_eq in Ha, Hb. unfold key_leP, key_le in Hab.
      rewrite Bool.orb_true_iff, Bool.andb_true_iff, Z.ltb_lt, Z.eqb_eq, Z.leb_le in Hab. lia.
    + apply strongly_sorted_filter, sort_index_sorted.
  - rewrite map_map. etransitivity; [|exact (map_fst_combine' cr_date x _ Hl)].
    apply map_ext. now intros [r v].
  - rewrite Hd, diff_prepend_nth_0, nth_error_map.
    destruct (nth_error x 0) as [r|] eqn:E; simpl; [|reflexivity].
    f_equal. apply sub_zeros, Hx. now apply nth_error_In in E.
  - intros j a b Ha Hb. rewrite Hd, diff_prepend_nth_S, !nth_error_map, Ha, Hb. reflexivity.
  - reflexivity.
  - intros d e Hdn He. unfold infection_files in He.
    rewrite nth_indep with (d' := write_infections (daily_deaths n rows) md_locs infection_lag 0)
      in He by (now rewrite length_map, length_seq).
    rewrite map_nth, seq_nth in He by exact Hdn. simpl in He.
    unfold write_infections in He. apply in_map_iff in He as (r & <- & Hr).
    apply filter_In in Hr as [Hr _]. eauto.
  - reflexivity.
Qed.

Lemma daily_deaths_first_difference_witness :
  (forall r, In r [mkCrow 1 1 [5%Z]; mkCrow 1 2 [12%Z]; mkCrow 1 3 [20%Z]] ->
             List.length (cr_draws r) = 1)
  /\ (let x := group_rows 1 (sort_index [mkCrow 1 1 [5%Z]; mkCrow 1 2 [12%Z]; mkCrow 1 3 [20%Z]]) in
      let out := group_rows 1 (daily_deaths 1 [mkCrow 1 1 [5%Z]; mkCrow 1 2 [12%Z]; mkCrow 1 3 [20%Z]]) in
      StronglySorted Z.le (map cr_date x)
      /\ map cr_date out = map cr_date x
      /\ nth_error (map cr_draws out) 0 = option_map cr_draws (nth_error x 0)
      /\ (forall j a b, nth_error x j = Some a -> nth_error x (S j) = Some b ->
            nth_error (map cr_draws out) (S j)
            = Some (map (fun '(u, v) => (u - v)%Z) (combine (cr_draws b) (cr_draws a))))
      /\ infection_lag = 23%Z
      /\ (forall d e, d < 1 ->
            In e (nth d (infection_files 1 [mkCrow 1 1 [5%Z]; mkCrow 1 2 [12%Z]; mkCrow 1 3 [20%Z]] [1%Z]) []) ->
            exists r, In r (daily_deaths 1 [mkCrow 1 1 [5%Z]; mkCrow 1 2 [12%Z]; mkCrow 1 3 [20%Z]])
                      /\ e = (cr_location_id r, (cr_date r - infection_lag)%Z, nth d (cr_draws r) 0%Z))
      /\ daily_deaths 1 [mkCrow 1 1 [5%Z]; mkCrow 1 2 [12%Z]; mkCrow 1 3 [20%Z]]
         = [mkCrow 1 1 [5%Z]; mkCrow 1 2 [7%Z]; mkCrow 1 3 [8%Z]]).
Proof.
  assert (Hw : forall r, In r [mkCrow 1 1 [5%Z]; mkCrow 1 2 [12%Z]; mkCrow 1 3 [20%Z]] ->
                         List.length (cr_draws r) = 1)
    by (intros r [<-|[<-|[<-|[]]]]; reflexivity).
  split; [exact Hw|].
  exact (daily_deaths_first_difference 1 _ [1%Z] 1 Hw).
Defined.

(* ------------------------------------------------------------------ *)
(** ** Rescaling by population *)



Lemma pow2_le (a b : Z) : (a <= b)%Z -> (pow2 a <= pow2 b)%Q.
Proof. intros H. apply Qpower_le_compat_l; [exact H|discriminate]. Qed.










(** [mul64] and [div64] give the results of the IEEE specification on
    rounding ties, on the subnormal range, at the overflow threshold and on
    the operands of [rescale_draws_round_trip_inexact]. *)
Lemma mul64_div64_match_spec_float :
  forallb (fun '(m1, e1, m2, e2) => agrees_with_spec_float m1 e1 m2 e2)
    [(3602879701896397%positive, (-55)%Z, 3%positive, 0%Z);
     (5404319552844596%positive, (-54)%Z, 3%positive, 0%Z);
     (1%positive, (-1074)%Z, 1%positive, (-1)%Z);
     (3%positive, (-1074)%Z, 1%positive, (-1)%Z);
     (7%positive, (-1070)%Z, 5%positive, (-10)%Z);
     (9007199254740991%positive, 971%Z, 2%positive, 0%Z);
     (9007199254740991%positive, 970%Z, 2%positive, 0%Z);
     (9007199254740993%positive, 0%Z, 1%positive, 0%Z);
     (12345678901234567%positive, (-60)%Z, 98765432123%positive, (-20)%Z);
     (9007199254740991%positive, 900%Z, 9007199254740993%positive, 70%Z);
     (1%positive, 0%Z, 3%positive, 0%Z);
     (2%positive, 0%Z, 3%positive, 0%Z)] = true.
Proof. vm_compute. reflexivity. Qed.

(** *** Rescaling *)





(* ------------------------------------------------------------------ *)
(** ** Post-model aggregates *)

Lemma in_aggregates_data_loc (model_data : list mrow) (h : hierarchy) (aggs : list Location) (r : mrow) :
  In r (compute_location_aggregates_data model_data h aggs) ->
  exists a, In a aggs /\ m_location_id r = lid a /\ m_location_name r = lname a.
Proof.
  unfold compute_location_aggregates_data. intros Hr.
  apply in_flat_map in Hr as (a & Ha & Hr). apply in_map_iff in Hr as (t & <- & _).
  exists a. auto.
Qed.

Lemma in_aggregates_draws_loc (draws : list crow) (h : hierarchy) (aggs : list Location) (r : crow) :
  In r (compute_location_aggregates_draws draws h aggs) ->
  exists a, In a aggs /\ cr_location_id r = lid a.
Proof.
  unfold compute_location_aggregates_draws. intros Hr.
  apply in_flat_map in Hr as (a & Ha & Hr). apply in_map_iff in Hr as (t & <- & _).
  exists a. auto.
Qed.

(** C8: every row of the published aggregate model data belongs to a
    declared aggregate location (the prepended [Global] or one of
    [agg_locations]) and carries the negation of its id and its name with
    the suffix [" (model aggregate)"]; every row of the published aggregate
    draws carries the negation of a declared aggregate id. *)
Theorem post_model_aggregates_ids (model_data : list mrow) (smooth_draws : list crow)
        (h : hierarchy) (agg_locations : list Location) :
  (forall r, In r (fst (post_model_aggregates model_data smooth_draws h agg_locations)) ->
     exists a, In a (mkLocation 1 "Global" :: agg_locations)
               /\ m_location_id r = (- lid a)%Z
               /\ m_location_name r = (lname a ++ " (model aggregate)")%string)
  /\ (forall r, In r (snd (post_model_aggregates model_data smooth_draws h agg_locations)) ->
     exists a, In a (mkLocation 1 "Global" :: agg_locations)
               /\ cr_location_id r = (- lid a)%Z).
Proof.
  unfold post_model_aggregates. cbv zeta. cbn [fst snd]. split.
  - intros r Hr. apply in_map_iff in Hr as (r0 & <- & Hr0).
    destruct (in_aggregates_data_loc _ _ _ _ Hr0) as (a & Ha & Hid & Hname).
    exists a. simpl. rewrite Hid, Hname. auto.
  - intros r Hr. apply in_map_iff in Hr as (r0 & <- & Hr0).
    destruct (in_aggregates_draws_loc _ _ _ _ Hr0) as (a & Ha & Hid).
    exists a. simpl. rewrite Hid. auto.
Qed.

(* ================================================================== *)
(** * Further properties of the code *)

(* ------------------------------------------------------------------ *)
(** ** Nested holdouts *)

Section BlankingCompose.

Variable V : Type.

Lemma drop_days_skipn (l : list (option V)) (h j : nat) :
  skipn j (drop_days_by_indicator V l h) = drop_days_by_indicator V (skipn j l) h.
Proof.
  apply nth_error_ext. intro i.
  rewrite nth_error_skipn, !drop_days_nth, nth_error_skipn, skipn_skipn.
  replace (S i + j) with (S (j + i)) by lia. reflexivity.
Qed.

Lemma drop_days_compose (l : list (option V)) (h k : nat) :
  drop_days_by_indicator V (drop_days_by_indicator V l h) k = drop_days_by_indicator V l (h + k).
Proof.
  apply nth_error_ext. intro i.
  rewrite (drop_days_nth V (drop_days_by_indicator V l h) k i).
  rewrite drop_days_skipn, drop_days_count, !drop_days_nth.
  destruct (nth_error l i) as [[v|]|]; try reflexivity.
  set (c := count_notnan V (skipn (S i) l)).
  destruct (c <? h) eqn:E1.
  - apply Nat.ltb_lt in E1.
    replace (c <? h + k) with true by (symmetry; apply Nat.ltb_lt; lia). reflexivity.
  - apply Nat.ltb_ge in E1.
    destruct (c - Nat.min h c <? k) eqn:E2; destruct (c <? h + k) eqn:E3;
      rewrite ?Nat.ltb_lt, ?Nat.ltb_ge in *; try reflexivity; lia.
Qed.

Lemma set_col_population (c : indicator) (vals : list (option V)) (df : frame V) :
  List.length vals = List.length df ->
  map (@population V) (set_col V c vals df) = map (@population V) df.
Proof.
  revert vals; induction df as [|r df IH]; intros [|v vals] E; simpl in *; try discriminate; auto.
  f_equal; [destruct c; reflexivity|]. apply IH. lia.
Qed.

Lemma blank_step_population (h : nat) (df : frame V) (c : indicator) :
  map (@population V) (blank_step V h df c) = map (@population V) df.
Proof.
  unfold blank_step. apply set_col_population.
  rewrite drop_days_length. unfold get_col. apply length_map.
Qed.

Lemma blank_frame_population (h : nat) (df : frame V) :
  map (@population V) (blank_frame V h df) = map (@population V) df.
Proof. rewrite blank_frame_steps, !blank_step_population. reflexivity. Qed.

Lemma blank_frame_length (h : nat) (df : frame V) :
  List.length (blank_frame V h df) = List.length df.
Proof. rewrite blank_frame_steps, !blank_step_length. reflexivity. Qed.

(** A frame is determined by its key, population and indicator columns. *)
Lemma frame_eq_cols (a b : frame V) :
  map (@location_id V) a = map (@location_id V) b ->
  map (@Date V) a = map (@Date V) b ->
  map (@population V) a = map (@population V) b ->
  (forall c, get_col V c a = get_col V c b) -> a = b.
Proof.
  revert b; induction a as [|x a IH]; intros [|y b] Hl Hd Hp Hc; simpl in *; try discriminate; auto.
  injection Hl as Hl1 Hl2. injection Hd as Hd1 Hd2. injection Hp as Hp1 Hp2.
  pose proof (Hc DeathRate) as C1. pose proof (Hc ConfirmedCaseRate) as C2.
  pose proof (Hc HospitalizationRate) as C3. unfold get_col in C1, C2, C3. simpl in C1, C2, C3.
  injection C1 as C11 C12. injection C2 as C21 C22. injection C3 as C31 C32.
  f_equal.
  - destruct x, y; simpl in *; congruence.
  - apply IH; auto. intro c. unfold get_col. destruct c; assumption.
Qed.

(** Line 38 drops only rows with all three indicators missing, so it never
    drops a non-missing value. *)
Lemma drop_empty_rows_count (df : frame V) (c : indicator) :
  count_notnan V (get_col V c (drop_empty_rows V df)) = count_notnan V (get_col V c df).
Proof.
  induction df as [|r df IH]; [reflexivity|].
  unfold drop_empty_rows, get_col, count_notnan in *. cbn [List.filter].
  destruct (existsb (fun c0 => notnan V (get_ind V c0 r)) indicators) eqn:E;
    cbn [map List.filter].
  - destruct (notnan V (get_ind V c r)); cbn [List.length]; rewrite IH; reflexivity.
  - assert (Hn : notnan V (get_ind V c r) = false).
    { apply Bool.not_true_iff_false. intro E'.
      assert (Hc : In c indicators) by (destruct c; simpl; tauto).
      apply Bool.not_true_iff_false in E. apply E, existsb_exists. eauto. }
    rewrite Hn. exact IH.
Qed.

Lemma drop_empty_rows_nonempty (df : frame V) (r : row V) :
  In r (drop_empty_rows V df) -> exists c, notnan V (get_ind V c r) = true.
Proof.
  unfold drop_empty_rows. intros Hr. apply filter_In in Hr as [_ Hr].
  apply existsb_exists in Hr as (c & _ & Hc). eauto.
Qed.

(** Blanking is additive in the holdout depth on the three columns. *)
Lemma blank_frame_add (h k : nat) (df : frame V) :
  blank_frame V k (blank_frame V h df) = blank_frame V (h + k) df.
Proof.
  apply frame_eq_cols.
  - rewrite !(proj2 (blank_frame_keys _ _ _)). reflexivity.
  - rewrite !(proj1 (blank_frame_keys _ _ _)). reflexivity.
  - rewrite !blank_frame_population. reflexivity.
  - intro c. rewrite !blank_frame_col. apply drop_days_compose.
Qed.

(** [drop_days_by_indicator] on a column [x :: l]: [x] is blanked iff it is
    present and fewer than [h] present values follow it. *)
Lemma drop_days_cons (x : option V) (l : list (option V)) (h : nat) :
  drop_days_by_indicator V (x :: l) h
  = (match x with
     | Some v => if count_notnan V l <? h then None else Some v
     | None => None
     end) :: drop_days_by_indicator V l h.
Proof.
  apply nth_error_ext. intros [|i]; rewrite drop_days_nth.
  - destruct x; reflexivity.
  - cbn [nth_error skipn]. rewrite drop_days_nth. reflexivity.
Qed.

Lemma row_ext (a b : row V) :
  location_id V a = location_id V b -> Date V a = Date V b -> population V a = population V b ->
  (forall c, get_ind V c a = get_ind V c b) -> a = b.
Proof.
  destruct a, b; simpl. intros -> -> -> Hc.
  pose proof (Hc DeathRate) as E1. pose proof (Hc ConfirmedCaseRate) as E2.
  pose proof (Hc HospitalizationRate) as E3. simpl in E1, E2, E3. subst. reflexivity.
Qed.

(** The first row of a blanked frame depends on the rest only through the
    number of present values of each indicator. *)
Lemma blank_frame_cons (h : nat) (r : row V) (X : frame V) :
  exists r', blank_frame V h (r :: X) = r' :: blank_frame V h X
    /\ location_id V r' = location_id V r /\ Date V r' = Date V r /\ population V r' = population V r
    /\ (forall c, get_ind V c r' = match get_ind V c r with
                                   | Some v => if count_notnan V (get_col V c X) <? h then None else Some v
                                   | None => None
                                   end).
Proof.
  pose proof (blank_frame_length h (r :: X)) as Hl.
  pose proof (blank_frame_keys V h (r :: X)) as [Kd Kl].
  pose proof (blank_frame_population h (r :: X)) as Kp.
  pose proof (blank_frame_col V h (r :: X)) as Kc.
  destruct (blank_frame V h (r :: X)) as [|r' T] eqn:E; [discriminate|].
  exists r'. cbn [map] in Kd, Kl, Kp. injection Kd as Kd1 Kd2. injection Kl as Kl1 Kl2.
  injection Kp as Kp1 Kp2.
  assert (Hc : forall c, get_ind V c r' :: get_col V c T
                         = (match get_ind V c r with
                            | Some v => if count_notnan V (get_col V c X) <? h then None else Some v
                            | None => None
                            end) :: drop_days_by_indicator V (get_col V c X) h).
  { intro c. rewrite <- drop_days_cons. exact (Kc c). }
  split; [|split; [exact Kl1|split; [exact Kd1|split; [exact Kp1|]]]].
  - f_equal. apply frame_eq_cols.
    + rewrite Kl2. symmetry. apply (proj2 (blank_frame_keys V h X)).
    + rewrite Kd2. symmetry. apply (proj1 (blank_frame_keys V h X)).
    + rewrite Kp2. symmetry. apply blank_frame_population.
    + intro c. rewrite blank_frame_col. specialize (Hc c). injection Hc as _ Hc. exact Hc.
  - intro c. specialize (Hc c). injection Hc as Hc _. exact Hc.
Qed.

Lemma drop_empty_rows_cons (r : row V) (X : frame V) :
  drop_empty_rows V (r :: X)
  = if existsb (fun c => notnan V (get_ind V c r)) indicators
    then r :: drop_empty_rows V X else drop_empty_rows V X.
Proof. reflexivity. Qed.

(** Blanking keeps an empty row empty. *)
Lemma empty_row_stays_empty (r r' : row V) :
  (forall c, notnan V (get_ind V c r') = true -> notnan V (get_ind V c r) = true) ->
  existsb (fun c => notnan V (get_ind V c r)) indicators = false ->
  existsb (fun c => notnan V (get_ind V c r')) indicators = false.
Proof.
  intros Himp E. apply Bool.not_true_iff_false. intro E'.
  apply existsb_exists in E' as (c & Hc & Hn).
  apply Bool.not_true_iff_false in E. apply E, existsb_exists. exists c. auto.
Qed.

(** Line 38 commutes with a later blanking: dropping the empty rows before
    blanking at depth [k] and again after it drops the same rows as
    dropping them once after blanking. *)
Lemma drop_blank_drop (k : nat) (X : frame V) :
  drop_empty_rows V (blank_frame V k (drop_empty_rows V X))
  = drop_empty_rows V (blank_frame V k X).
Proof.
  induction X as [|r X IH]; [reflexivity|].
  destruct (blank_frame_cons k r X) as (r1 & E1 & L1 & D1 & P1 & C1).
  rewrite drop_empty_rows_cons, E1.
  destruct (existsb (fun c => notnan V (get_ind V c r)) indicators) eqn:E.
  - destruct (blank_frame_cons k r (drop_empty_rows V X)) as (r2 & E2 & L2 & D2 & P2 & C2).
    rewrite E2.
    assert (R : r2 = r1).
    { apply row_ext; try congruence. intro c. rewrite C1, C2, drop_empty_rows_count. reflexivity. }
    rewrite R, !drop_empty_rows_cons, IH. reflexivity.
  - rewrite IH, drop_empty_rows_cons.
    rewrite (empty_row_stays_empty r r1); [reflexivity| |exact E].
    intros c Hc. rewrite C1 in Hc. destruct (get_ind V c r); [reflexivity|discriminate].
Qed.

End BlankingCompose.

Lemma nth_pair_second {A} (s : list A) (a b d : A) :
  nth (S (List.length s)) (s ++ [a; b])%list d = b.
Proof. rewrite app_nth2 by lia. replace (S (List.length s) - List.length s) with 1 by lia. reflexivity. Qed.

(** X1: blanking is additive in the holdout depth: running lines 34-38 of
    [model_iteration] (blanking the last points of each indicator, then
    dropping the rows with all three indicators missing) at depth [k] on
    the frame they produced at depth [h] gives the frame they produce at
    depth [h + k] on the original. *)
Theorem blank_frame_compose (V : Type) (s : store V) (r : ref) (h k : nat) :
  let '(r1, s1) := model_iteration_data V r h s in
  let '(r2, s2) := model_iteration_data V r1 k s1 in
  let '(r3, s3) := model_iteration_data V r (h + k) s in
  nth r2 s2 [] = nth r3 s3 [].
Proof.
  rewrite !model_iteration_data_eq. cbn beta iota.
  rewrite !nth_pair_second, drop_blank_drop, blank_frame_add. reflexivity.
Qed.

(** X2: the frame [model_iteration] hands to the first-stage models at
    depth [h] has no row with all three indicators missing, and for each
    indicator with [m] non-missing values in the original frame it keeps
    exactly [m - min(h, m)] of them: the filter of line 38 never drops a
    value that survived the blanking. *)
Theorem model_iteration_data_counts (V : Type) (s : store V) (r : ref) (h : nat) :
  let '(r', s') := model_iteration_data V r h s in
  (forall row, In row (nth r' s' []) -> exists c, notnan V (get_ind V c row) = true)
  /\ (forall c, count_notnan V (get_col V c (nth r' s' []))
                = count_notnan V (get_col V c (nth r s []))
                  - Nat.min h (count_notnan V (get_col V c (nth r s [])))).
Proof.
  rewrite model_iteration_data_eq.
  replace (nth (S (List.length s)) (s ++ [blank_frame V h (nth r s []);
             drop_empty_rows V (blank_frame V h (nth r s []))])%list [])
    with (drop_empty_rows V (blank_frame V h (nth r s [])))
    by (rewrite app_nth2 by lia; replace (S (List.length s) - List.length s) with 1 by lia; reflexivity).
  split.
  - intros row Hrow. now apply drop_empty_rows_nonempty in Hrow.
  - intro c. rewrite drop_empty_rows_count, blank_frame_col, drop_days_count. reflexivity.
Qed.

(* ------------------------------------------------------------------ *)
(** ** Draw allocation with a small budget *)

(** X3: when [n_draws] is smaller than the number [H + 1] of holdout
    iterations, every iteration but the deepest gets no draws and the
    deepest ([doy_holdout = H]) gets all of them. *)
Theorem iteration_n_draws_small_budget (H n_draws : nat) :
  n_draws < S H -> iteration_n_draws H n_draws = (repeat 0 H ++ [n_draws])%list.
Proof.
  intro Hlt. rewrite iteration_n_draws_shape, Nat.div_small by exact Hlt.
  simpl. rewrite Nat.sub_0_r. reflexivity.
Qed.

Lemma iteration_n_draws_small_budget_witness :
  2 < S 4 /\ iteration_n_draws 4 2 = (repeat 0 4 ++ [2])%list.
Proof. split; [lia | apply (iteration_n_draws_small_budget 4 2); lia]. Defined.

(* ------------------------------------------------------------------ *)
(** ** The merged draw columns *)

Lemma string_length_app (a b : string) : String.length (a ++ b) = String.length a + String.length b.
Proof. induction a as [|c a IH]; simpl; auto. Qed.

Lemma string_app_cancel_r (a b t : string) : (a ++ t = b ++ t)%string -> a = b.
Proof.
  revert b; induction a as [|c a IH]; intros [|c' b] E; simpl in E; auto.
  - apply (f_equal String.length) in E. simpl in E. rewrite string_length_app in E. lia.
  - apply (f_equal String.length) in E. simpl in E. rewrite string_length_app in E. lia.
  - injection E as -> E. f_equal. now apply IH.
Qed.

Lemma uint_to_string_no_dot (u : Decimal.uint) (s t : string) :
  uint_to_string u <> (s ++ String "." t)%string.
Proof.
  revert s; induction u; intros [|c s] E; simpl in E; try discriminate;
    injection E as _ E; eapply IHu; exact E.
Qed.

Lemma str_nat_float_neq (a b : nat) : (str_nat a ++ ".0")%string <> str_nat b.
Proof. intro E. symmetry in E. exact (uint_to_string_no_dot _ _ _ E). Qed.

Lemma list_sum_firstn_S (l : list nat) (k : nat) :
  k < List.length l -> list_sum (firstn (S k) l) = list_sum (firstn k l) + nth k l 0.
Proof.
  revert k; induction l as [|x l IH]; intros [|k] Hk; simpl in *; try lia.
  rewrite IH by lia. lia.
Qed.

Lemma list_sum_firstn_ge_head (l : list nat) (k : nat) :
  1 <= k -> nth 0 l 0 <= list_sum (firstn k l).
Proof. intros Hk. destruct l as [|x l]; [simpl; lia|]. destruct k; [lia|]. simpl. lia. Qed.

Lemma map_shift_seq {A} (g : nat -> A) (s a m : nat) :
  map (fun d => g (d + s)) (seq a m) = map g (seq (a + s) m).
Proof. revert a; induction m as [|m IH]; intros a; simpl; [reflexivity|]. rewrite IH. reflexivity. Qed.

Lemma iteration_n_draws_sum (H n : nat) : list_sum (iteration_n_draws H n) = n.
Proof.
  rewrite iteration_n_draws_shape, list_sum_app, list_sum_repeat.
  pose proof (div_mul_le n H) as Hle. remember (n / S H) as b. simpl.
  rewrite Nat.mul_succ_r in *. lia.
Qed.

Lemma iteration_n_draws_length (H n : nat) : List.length (iteration_n_draws H n) = S H.
Proof. rewrite iteration_n_draws_shape, length_app, repeat_length. simpl. lia. Qed.

Lemma new_cols_0 (ds : list nat) :
  new_cols ds 0
  = map (fun d => if d <? nth 0 ds 0 then "draw_" ++ str_nat d ++ ".0" else "draw_" ++ str_nat d)
        (seq 0 (nth 0 ds 0)).
Proof.
  unfold new_cols, col_add. simpl firstn. apply map_ext_in. intros d Hd.
  apply in_seq in Hd. replace (d <? nth 0 ds 0) with true by (symmetry; apply Nat.ltb_lt; lia).
  simpl. rewrite Nat.add_0_r. reflexivity.
Qed.

Lemma new_cols_S (ds : list nat) (k : nat) :
  1 <= k -> k < List.length ds ->
  new_cols ds k
  = map (fun d => if d <? nth 0 ds 0 then "draw_" ++ str_nat d ++ ".0" else "draw_" ++ str_nat d)
        (seq (list_sum (firstn k ds)) (nth k ds 0)).
Proof.
  intros H1 Hk. unfold new_cols, col_add.
  assert (Hf : np_sum (firstn k ds) = NInt (list_sum (firstn k ds))).
  { destruct ds as [|x ds]; [simpl in Hk; lia|]. destruct k; [lia|]. reflexivity. }
  rewrite Hf. simpl np_add_int.
  rewrite <- (map_shift_seq (fun d => if d <? nth 0 ds 0 then "draw_" ++ str_nat d ++ ".0"
                                      else "draw_" ++ str_nat d) (list_sum (firstn k ds)) 0).
  apply map_ext. intro d. pose proof (list_sum_firstn_ge_head ds k H1).
  replace (d + list_sum (firstn k ds) <? nth 0 ds 0) with false
    by (symmetry; apply Nat.ltb_ge; lia).
  reflexivity.
Qed.

Lemma new_cols_prefix (ds : list nat) (k : nat) :
  1 <= k -> k <= List.length ds ->
  flat_map (new_cols ds) (seq 0 k)
  = map (fun d => if d <? nth 0 ds 0 then "draw_" ++ str_nat d ++ ".0" else "draw_" ++ str_nat d)
        (seq 0 (list_sum (firstn k ds))).
Proof.
  induction k as [|k IH]; intros H1 Hk; [lia|].
  rewrite seq_S, flat_map_app. destruct k as [|k].
  - cbn [seq flat_map]. rewrite app_nil_r, app_nil_l, new_cols_0.
    destruct ds as [|x ds]; simpl in Hk; [lia|]. cbn [nth firstn list_sum fold_right].
    rewrite Nat.add_0_r. reflexivity.
  - cbn [flat_map]. rewrite app_nil_r, IH by lia. rewrite Nat.add_0_l.
    rewrite (new_cols_S ds (S k)) by lia. rewrite (list_sum_firstn_S ds (S k)) by lia.
    rewrite (seq_app (list_sum (firstn (S k) ds))), map_app. reflexivity.
Qed.

(** The assembled draw column names in closed form. *)
Lemma assembled_draw_cols_closed (H n : nat) :
  assembled_draw_cols H n
  = map (fun d => if d <? nth 0 (iteration_n_draws H n) 0
                  then "draw_" ++ str_nat d ++ ".0" else "draw_" ++ str_nat d)
        (seq 0 n).
Proof.
  unfold assembled_draw_cols. cbv zeta.
  rewrite (flat_map_ext _ _ (renamed_draw_cols_new (iteration_n_draws H n))).
  rewrite new_cols_prefix by (rewrite ?iteration_n_draws_length; lia).
  rewrite firstn_all, iteration_n_draws_sum. reflexivity.
Qed.

Lemma draw_name_inj (d0 a b : nat) :
  (if a <? d0 then "draw_" ++ str_nat a ++ ".0" else "draw_" ++ str_nat a)
  = (if b <? d0 then "draw_" ++ str_nat b ++ ".0" else "draw_" ++ str_nat b) -> a = b.
Proof.
  intro E. destruct (a <? d0), (b <? d0); apply draw_prefix_inj in E.
  - apply str_nat_inj. eapply string_app_cancel_r. exact E.
  - exfalso. exact (str_nat_float_neq _ _ E).
  - exfalso. symmetry in E. exact (str_nat_float_neq _ _ E).
  - now apply str_nat_inj.
Qed.

Lemma NoDup_map_inj {A B} (f : A -> B) (l : list A) :
  (forall a b, f a = f b -> a = b) -> NoDup l -> NoDup (map f l).
Proof.
  intros Hf Hl. induction Hl as [|x l Hx Hl IH]; simpl; constructor; auto.
  intro Hin. apply in_map_iff in Hin as (y & Ey & Hy). apply Hf in Ey. subst. contradiction.
Qed.

Lemma draw_prefix_true (x : string) : String.prefix "draw_" ("draw_" ++ x) = true.
Proof. simpl. destruct x; reflexivity. Qed.

Lemma local_cols_prefix (ds : list nat) (i : nat) (c : string) :
  In c (local_cols ds i) -> String.prefix "draw_" c = true.
Proof. unfold local_cols. intros Hc. apply in_map_iff in Hc as (d & <- & _). apply draw_prefix_true. Qed.

Lemma rename_col_absent (m : list (string * string)) (c : string) :
  ~ In c (map fst m) -> rename_col m c = c.
Proof.
  induction m as [|[a b] m IH]; simpl; [reflexivity|]. intros Hn.
  destruct (String.eqb_spec a c); [tauto|]. apply IH. tauto.
Qed.

Lemma renamed_result_cols_eq (base : list string) (ds : list nat) (i : nat) :
  (forall c, In c base -> String.prefix "draw_" c = false) ->
  renamed_result_cols base ds i = (base ++ new_cols ds i)%list.
Proof.
  intros Hb. unfold renamed_result_cols, iteration_result_cols. rewrite map_app.
  f_equal; [|apply renamed_draw_cols_new].
  rewrite <- (map_id base) at 2. apply map_ext_in. intros c Hc.
  apply rename_col_absent. intro Hin. apply in_map_iff in Hin as ([a b] & <- & Hab).
  apply in_combine_l in Hab. apply local_cols_prefix in Hab. simpl in Hab.
  rewrite Hb in Hab by exact Hc. discriminate.
Qed.

Lemma existsb_eqb_string (c : string) (xs : list string) :
  existsb (String.eqb c) xs = true <-> In c xs.
Proof.
  rewrite existsb_exists. split.
  - intros (x & Hx & E). apply String.eqb_eq in E. now subst.
  - intros Hc. exists c. split; [exact Hc|]. apply String.eqb_refl.
Qed.

Lemma NoDup_app_disjoint {A} (l1 l2 : list A) (a : A) :
  NoDup (l1 ++ l2) -> In a l1 -> In a l2 -> False.
Proof.
  induction l1 as [|x t IH]; simpl; [tauto|]. intros Hnd [<-|Ha] Hb; inversion Hnd as [|? ? Hx Ht]; subst.
  - apply Hx, in_or_app. now right.
  - exact (IH Ht Ha Hb).
Qed.

Lemma merge_cols_fold (base : list string) (N : nat -> list string) (is : list nat) (A : list string) :
  (forall c, In c base -> String.prefix "draw_" c = false) ->
  (forall i c, In c (N i) -> String.prefix "draw_" c = true) ->
  NoDup (A ++ flat_map N is)%list ->
  fold_left merge_cols (map (fun i => base ++ N i)%list is) (base ++ A)%list
  = (base ++ A ++ flat_map N is)%list.
Proof.
  intros Hb HN. revert A; induction is as [|i is IH]; intros A Hnd; simpl.
  - rewrite !app_nil_r. reflexivity.
  - assert (Hm : merge_cols (base ++ A) (base ++ N i) = (base ++ (A ++ N i))%list).
    { unfold merge_cols. rewrite filter_app, filter_all_false, filter_all_true.
      - rewrite app_nil_l, app_assoc. reflexivity.
      - intros c Hc. apply Bool.negb_true_iff, Bool.not_true_iff_false.
        rewrite existsb_eqb_string. intro Hin. apply in_app_or in Hin as [Hin|Hin].
        + pose proof (Hb c Hin). rewrite (HN i c Hc) in H. discriminate.
        + simpl in Hnd. rewrite app_assoc in Hnd. apply NoDup_app_remove_r in Hnd.
          exact (NoDup_app_disjoint _ _ _ Hnd Hin Hc).
      - intros c Hc. apply Bool.negb_false_iff, existsb_eqb_string, in_or_app. now left. }
    rewrite Hm, IH; [rewrite !app_assoc; reflexivity|]. simpl in Hnd. now rewrite app_assoc in Hnd.
Qed.

Lemma assembled_draw_cols_new (H n : nat) :
  assembled_draw_cols H n = flat_map (new_cols (iteration_n_draws H n)) (seq 0 (S H)).
Proof.
  unfold assembled_draw_cols. cbv zeta. rewrite iteration_n_draws_length.
  apply flat_map_ext. apply renamed_draw_cols_new.
Qed.

Lemma assembled_draw_cols_prefix (H n : nat) (c : string) :
  In c (assembled_draw_cols H n) -> String.prefix "draw_" c = true.
Proof.
  rewrite assembled_draw_cols_closed. intros Hc. apply in_map_iff in Hc as (d & <- & _).
  destruct (d <? _); apply draw_prefix_true.
Qed.

(** X4: as long as none of the frames' other columns starts with
    ["draw_"], the outer merges of lines 120-121 join the iterations on
    those columns only and keep every renamed draw column, so the merged
    table has the other columns followed by the [n_draws] assembled draw
    columns; these are pairwise distinct ([draw_k.0] for the [k] of
    iteration 0, [draw_k] after), and line 129 selects exactly them, in
    order. *)
Theorem merged_draw_cols_selected (base : list string) (H n_draws : nat) :
  (forall c, In c base -> String.prefix "draw_" c = false) ->
  merged_result_cols base H n_draws = Some (base ++ assembled_draw_cols H n_draws)%list
  /\ option_map select_draw_cols (merged_result_cols base H n_draws)
     = Some (assembled_draw_cols H n_draws)
  /\ NoDup (assembled_draw_cols H n_draws)
  /\ List.length (assembled_draw_cols H n_draws) = n_draws
  /\ assembled_draw_cols H n_draws
     = map (fun d => if d <? nth 0 (iteration_n_draws H n_draws) 0
                     then "draw_" ++ str_nat d ++ ".0" else "draw_" ++ str_nat d)
           (seq 0 n_draws).
Proof.
  intros Hb.
  assert (Hnd : NoDup (assembled_draw_cols H n_draws)).
  { rewrite assembled_draw_cols_closed. apply NoDup_map_inj; [apply draw_name_inj|apply seq_NoDup]. }
  assert (Hm : merged_result_cols base H n_draws = Some (base ++ assembled_draw_cols H n_draws)%list).
  { unfold merged_result_cols. cbv zeta. rewrite iteration_n_draws_length.
    rewrite (map_ext _ _ (fun i => renamed_result_cols_eq base (iteration_n_draws H n_draws) i Hb)).
    cbn [seq map py_reduce]. f_equal.
    rewrite merge_cols_fold; [| exact Hb | | ].
    - rewrite assembled_draw_cols_new. reflexivity.
    - intros i c Hc. unfold new_cols in Hc. apply in_map_iff in Hc as (d & <- & _).
      apply draw_prefix_true.
    - rewrite assembled_draw_cols_new in Hnd. exact Hnd. }
  split; [exact Hm|]. split; [|split; [exact Hnd|split]].
  - rewrite Hm. simpl. f_equal. unfold select_draw_cols.
    rewrite filter_app, filter_all_false, filter_all_true; [reflexivity| |exact Hb].
    apply assembled_draw_cols_prefix.
  - rewrite assembled_draw_cols_closed, length_map, length_seq. reflexivity.
  - apply assembled_draw_cols_closed.
Qed.

Lemma merged_draw_cols_selected_witness :
  (forall c, In c ["location_id"; "Date"; "population"] -> String.prefix "draw_" c = false)
  /\ merged_result_cols ["location_id"; "Date"; "population"] 2 10
     = Some (["location_id"; "Date"; "population"] ++ assembled_draw_cols 2 10)%list
  /\ option_map select_draw_cols (merged_result_cols ["location_id"; "Date"; "population"] 2 10)
     = Some (assembled_draw_cols 2 10)
  /\ NoDup (assembled_draw_cols 2 10)
  /\ List.length (assembled_draw_cols 2 10) = 10
  /\ assembled_draw_cols 2 10
     = map (fun d => if d <? nth 0 (iteration_n_draws 2 10) 0
                     then "draw_" ++ str_nat d ++ ".0" else "draw_" ++ str_nat d)
           (seq 0 10).
Proof.
  assert (Hb : forall c, In c ["location_id"; "Date"; "population"] -> String.prefix "draw_" c = false)
    by (intros c [<-|[<-|[<-|[]]]]; reflexivity).
  split; [exact Hb|]. exact (merged_draw_cols_selected _ 2 10 Hb).
Defined.

(* ------------------------------------------------------------------ *)
(** ** The NaN guard when the run goes on *)

Lemma notnull_entries_nodup (F : Z -> option Z) (ks : list Z) :
  NoDup ks -> NoDup (map fst (notnull_entries (map (fun k => (k, F k)) ks))).
Proof.
  induction 1 as [|k ks Hk Hks IH]; simpl; [constructor|].
  destruct (F k) eqn:E; simpl; [|exact IH].
  constructor; [|exact IH]. intro Hin. apply in_map_iff in Hin as ([l g] & El & Hin).
  simpl in El. subst l. apply in_notnull_entries in Hin as [Hin _]. contradiction.
Qed.

Lemma date_diffs_nodup (V : Type) (nans kept : list (drow V)) :
  NoDup (map fst (date_diffs V nans kept)).
Proof. unfold date_diffs, sub_aligned. apply notnull_entries_nodup, group_keys_nodup. Qed.

Lemma list_min_some_iff (xs : list Z) : (exists m, list_min xs = Some m) <-> xs <> [].
Proof.
  split.
  - intros [m Hm] ->. discriminate.
  - intros Hx. destruct xs as [|y t]; [contradiction|]. apply (list_min_some _ y). now left.
Qed.

Lemma list_max_some_iff (xs : list Z) : (exists m, list_max xs = Some m) <-> xs <> [].
Proof.
  split.
  - intros [m Hm] ->. discriminate.
  - intros Hx. destruct xs as [|y t]; [contradiction|]. apply (list_max_some _ y). now left.
Qed.

Lemma dates_of_nonempty (V : Type) (l : Z) (rows : list (drow V)) :
  dates_of V l rows <> [] <-> exists r, In r rows /\ sd_location_id V r = l.
Proof.
  split.
  - intros Hne. destruct (dates_of V l rows) as [|d t] eqn:E; [contradiction|].
    assert (Hd : In d (dates_of V l rows)) by (rewrite E; now left).
    apply in_dates_of in Hd as (r & Hr & Hl & _). eauto.
  - intros (r & Hr & Hl) E. assert (Hd : In (sd_date V r) (dates_of V l rows)).
    { apply in_dates_of. eauto. }
    rewrite E in Hd. destruct Hd.
Qed.

Lemma in_date_diffs_keys (V : Type) (nans kept : list (drow V)) (l : Z) :
  In l (map fst (date_diffs V nans kept))
  <-> (exists r, In r nans /\ sd_location_id V r = l)
      /\ (exists r, In r kept /\ sd_location_id V r = l).
Proof.
  rewrite <- !dates_of_nonempty, <- list_min_some_iff, <- list_max_some_iff. split.
  - intros Hin. apply in_map_iff in Hin as ([l' g] & El & Hin). simpl in El. subst l'.
    apply in_date_diffs in Hin as (a & b & Ha & Hb & _). eauto.
  - intros [[a Ha] [b Hb]]. apply in_map_iff. exists (l, (a - b)%Z). split; [reflexivity|].
    apply in_date_diffs. eauto.
Qed.

(** X5: whenever the NaN guard lets the run go on, it has written no file,
    the rows kept are exactly the rows without a missing draw (in their
    order), and [nan_locations] lists, without repetition, exactly the
    locations that have both a row with a missing draw and a row without
    one; in particular, with no missing draw at all every row is kept and
    [nan_locations] is empty. *)
Theorem capture_nans_continue (V : Type) (rows : list (drow V)) (kept : list (drow V)) (nl : list Z) :
  snd (capture_nans V rows) = Continue V kept nl ->
  fst (capture_nans V rows) = []
  /\ kept = List.filter (fun r => negb (nan_row V r)) rows
  /\ NoDup nl
  /\ (forall l, In l nl <->
        (exists r, In r rows /\ sd_location_id V r = l /\ nan_row V r = true)
        /\ (exists r, In r rows /\ sd_location_id V r = l /\ nan_row V r = false)).
Proof.
  unfold capture_nans. destruct (List.filter (nan_row V) rows) as [|d t] eqn:En.
  - simpl. intros E. injection E as <- <-.
    split; [reflexivity|]. split.
    + symmetry. apply filter_all_true. intros r Hr. apply Bool.negb_true_iff.
      exact (nan_rows_nil V rows r En Hr).
    + split; [constructor|]. intro l. split; [intros []|].
      intros [(r & Hr & _ & Hn) _]. rewrite (nan_rows_nil V rows r En Hr) in Hn. discriminate.
  - cbv zeta.
    destruct (existsb _ _) eqn:Ex; simpl; [discriminate|].
    intros E. injection E as <- <-.
    split; [reflexivity|]. split; [reflexivity|]. split; [apply date_diffs_nodup|].
    intro l. rewrite in_date_diffs_keys, <- En. split.
    + intros [(r & Hr & Hl) (r' & Hr' & Hl')].
      apply filter_In in Hr as [Hr Hn]. apply filter_In in Hr' as [Hr' Hn'].
      apply Bool.negb_true_iff in Hn'. split; eauto.
    + intros [(r & Hr & Hl & Hn) (r' & Hr' & Hl' & Hn')]. split.
      * exists r. split; [apply filter_In; auto | exact Hl].
      * exists r'. split; [apply filter_In; split; [exact Hr'|now rewrite Hn'] | exact Hl'].
Qed.

Lemma capture_nans_continue_witness :
  let rows := [mkDrow 5%Z 1%Z [Some tt]; mkDrow 5%Z 2%Z [None]; mkDrow 6%Z 1%Z [Some tt]] in
  snd (capture_nans unit rows) = Continue unit [mkDrow 5%Z 1%Z [Some tt]; mkDrow 6%Z 1%Z [Some tt]] [5%Z]
  /\ (fst (capture_nans unit rows) = []
      /\ [mkDrow 5%Z 1%Z [Some tt]; mkDrow 6%Z 1%Z [Some tt]]
         = List.filter (fun r => negb (nan_row unit r)) rows
      /\ NoDup [5%Z]
      /\ (forall l, In l [5%Z] <->
            (exists r, In r rows /\ sd_location_id unit r = l /\ nan_row unit r = true)
            /\ (exists r, In r rows /\ sd_location_id unit r = l /\ nan_row unit r = false))).
Proof.
  cbv zeta.
  assert (E : snd (capture_nans unit [mkDrow 5%Z 1%Z [Some tt]; mkDrow 5%Z 2%Z [None];
                                       mkDrow 6%Z 1%Z [Some tt]])
              = Continue unit [mkDrow 5%Z 1%Z [Some tt]; mkDrow 6%Z 1%Z [Some tt]] [5%Z])
    by reflexivity.
  split; [exact E|]. exact (capture_nans_continue unit _ _ _ E).
Defined.

(* ------------------------------------------------------------------ *)
(** ** Daily deaths: row keys *)

Lemma insert_row_perm (r : crow) (rows : list crow) : Permutation (insert_row r rows) (r :: rows).
Proof.
  induction rows as [|r' t IH]; simpl; [reflexivity|].
  destruct (key_le r' r); [|reflexivity].
  etransitivity; [apply perm_skip, IH|]. apply perm_swap.
Qed.

Lemma sort_index_perm (rows : list crow) : Permutation (sort_index rows) rows.
Proof.
  induction rows as [|r t IH]; simpl; [reflexivity|].
  etransitivity; [apply insert_row_perm|]. now apply perm_skip.
Qed.

Lemma group_keys_sorted (ks : list Z) : StronglySorted Z.lt (group_keys ks).
Proof.
  apply Sorted_StronglySorted; [exact Z.lt_trans|].
  induction ks; simpl; [constructor|]. now apply insert_key_sorted.
Qed.

Lemma flat_map_ext_in {A B} (f g : A -> list B) (l : list A) :
  (forall a, In a l -> f a = g a) -> flat_map f l = flat_map g l.
Proof.
  induction l as [|a l IH]; intros E; simpl; [reflexivity|].
  rewrite E by (now left). rewrite IH; [reflexivity|]. intros b Hb. apply E. now right.
Qed.

Lemma flat_map_cons1 {A B} (f : A -> list B) (a : A) (l : list A) :
  flat_map f (a :: l) = (f a ++ flat_map f l)%list.
Proof. reflexivity. Qed.

Lemma group_rows_cons_other (k : Z) (x : crow) (xs : list crow) :
  k <> cr_location_id x -> group_rows k (x :: xs) = group_rows k xs.
Proof. intros Hk. unfold group_rows. simpl. destruct (Z.eqb_spec (cr_location_id x) k); [lia|reflexivity]. Qed.

Lemma group_rows_cons_same (x : crow) (xs : list crow) :
  group_rows (cr_location_id x) (x :: xs) = x :: group_rows (cr_location_id x) xs.
Proof. unfold group_rows. simpl. now rewrite Z.eqb_refl. Qed.

(** Grouping a table sorted by [(location_id, date)] by location, in key
    order, gives the table back. *)
Lemma flat_map_group_sorted (xs : list crow) :
  StronglySorted key_leP xs ->
  flat_map (fun l => group_rows l xs) (group_keys (map cr_location_id xs)) = xs.
Proof.
  induction 1 as [|x xs Hs IH Hf]; [reflexivity|].
  cbn [map group_keys fold_right]. fold (group_keys (map cr_location_id xs)) in *.
  set (K := group_keys (map cr_location_id xs)) in *.
  assert (HK : forall k, In k K -> (cr_location_id x <= k)%Z).
  { intros k Hk. apply in_group_keys, in_map_iff in Hk as (y & <- & Hy).
    apply (proj1 (Forall_forall _ _) Hf) in Hy. unfold key_leP, key_le in Hy.
    rewrite Bool.orb_true_iff, Bool.andb_true_iff, Z.ltb_lt, Z.eqb_eq, Z.leb_le in Hy. lia. }
  assert (HS : StronglySorted Z.lt K) by apply group_keys_sorted.
  assert (Hother : forall K', (forall k, In k K' -> k <> cr_location_id x) ->
            flat_map (fun l => group_rows l (x :: xs)) K' = flat_map (fun l => group_rows l xs) K').
  { intros K' HK'. apply flat_map_ext_in. intros k Hk. apply group_rows_cons_other, HK', Hk. }
  destruct K as [|k K'] eqn:EK.
  - destruct xs as [|y xs]; [simpl; unfold group_rows; simpl; rewrite Z.eqb_refl; reflexivity|].
    exfalso. assert (Hy : In (cr_location_id y) K) by (apply in_group_keys; now left).
    rewrite EK in Hy. destruct Hy.
  - inversion HS as [|? ? HS' HF]; subst.
    assert (Hk' : forall k', In k' K' -> (k < k')%Z) by (apply Forall_forall; exact HF).
    pose proof (HK k (or_introl eq_refl)) as Hxk.
    cbn [insert_key]. destruct (Z.ltb_spec (cr_location_id x) k) as [Hlt|Hge].
    + rewrite flat_map_cons1, group_rows_cons_same.
      replace (group_rows (cr_location_id x) xs) with (@nil crow).
      * rewrite Hother; [rewrite IH; reflexivity|].
        intros k0 [<-|Hk0]; [lia|]. specialize (Hk' k0 Hk0). lia.
      * symmetry. apply filter_all_false. intros y Hy. apply Z.eqb_neq. intro Ey.
        assert (Hin : In (cr_location_id y) K) by (apply in_group_keys, in_map; exact Hy).
        rewrite EK in Hin. destruct Hin as [Hin|Hin]; [lia|]. specialize (Hk' _ Hin). lia.
    + assert (Ek : cr_location_id x = k) by lia. rewrite Ek, Z.eqb_refl.
      rewrite flat_map_cons1, <- Ek, group_rows_cons_same, Hother.
      * transitivity (x :: flat_map (fun l => group_rows l xs) (k :: K'));
          [rewrite flat_map_cons1, Ek; reflexivity | rewrite IH; reflexivity].
      * intros k0 Hk0. specialize (Hk' k0 Hk0). lia.
Qed.

(** X7: the daily table has exactly the [(location_id, date)] keys of the
    cumulative table it comes from, as many times each: differencing
    neither drops nor adds a row. *)
Theorem daily_deaths_keys_perm (n : nat) (rows : list crow) :
  Permutation (map (fun r => (cr_location_id r, cr_date r)) (daily_deaths n rows))
              (map (fun r => (cr_location_id r, cr_date r)) rows).
Proof.
  unfold daily_deaths. cbv zeta. set (sorted := sort_index rows).
  rewrite flat_map_concat_map, concat_map, map_map.
  transitivity (map (fun r => (cr_location_id r, cr_date r)) sorted);
    [|apply Permutation_map, sort_index_perm].
  rewrite <- (flat_map_group_sorted sorted) at 2 by apply sort_index_sorted.
  rewrite flat_map_concat_map, concat_map, map_map. apply Permutation_refl'.
  f_equal. apply map_ext_in. intros l _. rewrite map_map.
  assert (Hl : List.length (group_rows l sorted)
               = List.length (diff_prepend (zeros n) (map cr_draws (group_rows l sorted))))
    by (now rewrite diff_prepend_length, length_map).
  rewrite <- (map_fst_combine' (fun r => (cr_location_id r, cr_date r)) _ _ Hl).
  apply map_ext_in. intros [r v] Hin. apply in_combine_l, filter_In in Hin as [_ Hr].
  apply Z.eqb_eq in Hr. simpl. now rewrite Hr.
Qed.

(* ------------------------------------------------------------------ *)
(** ** Jobs and failed locations *)

Lemma memZ_in (l : Z) (ls : list Z) : memZ l ls = true <-> In l ls.
Proof. apply existsb_eqb_in_Z. Qed.

Lemma in_unique_acc (x : Z) (seen xs : list Z) :
  In x (unique_acc seen xs) <-> In x xs /\ ~ In x seen.
Proof.
  revert seen; induction xs as [|y t IH]; intros seen; simpl; [tauto|].
  destruct (memZ y seen) eqn:E.
  - apply memZ_in in E. rewrite IH. split; [tauto|].
    intros [[<-|Hx] Hn]; [contradiction|tauto].
  - apply Bool.not_true_iff_false in E. rewrite memZ_in in E. simpl. rewrite IH. simpl.
    split.
    + intros [<-|[Hx Hn]]; [tauto|]. split; [now right|tauto].
    + intros [[<-|Hx] Hn]; [now left|]. destruct (Z.eq_dec y x); [now left|right; split; [exact Hx|]].
      intros [E'|E']; [contradiction|tauto].
Qed.

Lemma unique_acc_nodup (seen xs : list Z) : NoDup (unique_acc seen xs).
Proof.
  revert seen; induction xs as [|y t IH]; intros seen; simpl; [constructor|].
  destruct (memZ y seen); [apply IH|]. constructor; [|apply IH].
  rewrite in_unique_acc. simpl. tauto.
Qed.

Lemma in_unique (x : Z) (xs : list Z) : In x (unique xs) <-> In x xs.
Proof. unfold unique. rewrite in_unique_acc. simpl. tauto. Qed.

Lemma NoDup_filter' {A} (p : A -> bool) (l : list A) : NoDup l -> NoDup (List.filter p l).
Proof.
  induction 1 as [|x l Hx Hl IH]; simpl; [constructor|].
  destruct (p x); [|exact IH]. constructor; [|exact IH].
  intro Hin. apply filter_In in Hin as [Hin _]. contradiction.
Qed.

(** X8: [job_args_map] launches one job per distinct location of
    [model_data] other than the parent-model location 189, and
    [failed_model_locations] lists, without repetition, exactly the
    locations that got a job, are most-detailed (in the hierarchy) and have
    no row in the collected death results. *)
Theorem failed_model_locations_spec (model_locs post_locs md_locs : list Z) :
  NoDup (job_locations model_locs)
  /\ (forall l, In l (job_locations model_locs)
                <-> In l model_locs /\ ~ In l PARENT_MODEL_LOCATIONS)
  /\ NoDup (failed_model_locations model_locs post_locs md_locs)
  /\ (forall l, In l (failed_model_locations model_locs post_locs md_locs)
                <-> In l (job_locations model_locs) /\ ~ In l post_locs /\ In l md_locs).
Proof.
  assert (Hjob : forall l, In l (job_locations model_locs)
                           <-> In l model_locs /\ ~ In l PARENT_MODEL_LOCATIONS).
  { intro l. unfold job_locations. rewrite filter_In, in_unique, Bool.negb_true_iff,
      <- Bool.not_true_iff_false, memZ_in. tauto. }
  split; [apply NoDup_filter', unique_acc_nodup|]. split; [exact Hjob|]. split.
  - unfold failed_model_locations. cbv zeta. apply NoDup_filter', NoDup_filter', unique_acc_nodup.
  - intro l. unfold failed_model_locations. cbv zeta. rewrite Hjob.
    rewrite !filter_In, in_unique, filter_In, !Bool.negb_true_iff, <- !Bool.not_true_iff_false,
      !memZ_in. tauto.
Qed.

(* ------------------------------------------------------------------ *)
(** ** The fixed output columns of [model_iteration] *)

Section KeepColsProofs.

Variable V : Type.

Lemma has_col_in (c : string) (df : cframe V) : has_col V c df = true <-> In c (map fst (columns V df)).
Proof. unfold has_col. apply existsb_eqb_string. Qed.

Lemma add_nan_cols_props (cs : list string) (df : cframe V) :
  let df' := fold_left (add_nan_col V) cs df in
  nrows V df' = nrows V df
  /\ (forall p, In p (columns V df) -> In p (columns V df'))
  /\ (NoDup (map fst (columns V df)) -> NoDup (map fst (columns V df')))
  /\ (forall c, In c cs -> In c (map fst (columns V df')))
  /\ (forall c v, In (c, v) (columns V df') -> In (c, v) (columns V df) \/ v = repeat None (nrows V df)).
Proof.
  revert df; induction cs as [|c cs IH]; intros df; cbv zeta; simpl.
  - split; [reflexivity|]. split; [auto|]. split; [auto|]. split; [intros _ []|]. auto.
  - destruct (IH (add_nan_col V df c)) as (H1 & H2 & H3 & H4 & H5). cbv zeta in *.
    assert (Hn : nrows V (add_nan_col V df c) = nrows V df)
      by (unfold add_nan_col; destruct (has_col V c df); reflexivity).
    assert (Hsub : forall p, In p (columns V df) -> In p (columns V (add_nan_col V df c))).
    { intros p Hp. unfold add_nan_col. destruct (has_col V c df); [exact Hp|].
      simpl. apply in_or_app. now left. }
    assert (Hc : In c (map fst (columns V (add_nan_col V df c)))).
    { unfold add_nan_col. destruct (has_col V c df) eqn:E; [now apply has_col_in|].
      simpl. rewrite map_app. apply in_or_app. right. now left. }
    split; [congruence|]. split; [auto|]. split; [|split].
    + intros Hnd. apply H3. unfold add_nan_col. destruct (has_col V c df) eqn:E; [exact Hnd|].
      simpl. rewrite map_app. simpl. apply NoDup_app; [exact Hnd| repeat constructor; simpl; tauto|].
      intros a Ha [<-|[]]. apply Bool.not_true_iff_false in E. apply E, has_col_in, Ha.
    + intros c' [<-|Hc']; [|auto].
      apply in_map_iff in Hc as ([c0 v0] & E0 & Hp).
      simpl in E0. subst c0. apply in_map_iff. exists (c, v0). split; [reflexivity|auto].
    + intros c' v Hv. destruct (H5 c' v Hv) as [Hv'|Hv']; [|right; congruence].
      unfold add_nan_col in Hv'. destruct (has_col V c df); [now left|].
      simpl in Hv'. apply in_app_or in Hv' as [Hv'|[Ev|[]]]; [now left|].
      injection Ev as _ <-. now right.
Qed.

Lemma filter_name_unique (cols : list (string * list (option V))) (k : string) (v : list (option V)) :
  NoDup (map fst cols) -> In (k, v) cols ->
  List.filter (fun '(c, _) => String.eqb c k) cols = [(k, v)].
Proof.
  induction cols as [|[c w] cols IH]; intros Hnd Hin; [destruct Hin|].
  simpl in Hnd. inversion Hnd as [|? ? Hc Hnd']; subst. simpl.
  destruct Hin as [E|Hin].
  - injection E as -> ->. rewrite String.eqb_refl. f_equal.
    apply filter_all_false. intros [c' w'] Hp. apply String.eqb_neq. intros ->.
    apply Hc, in_map_iff. exists (k, w'). auto.
  - destruct (String.eqb_spec c k) as [->|Hne].
    + exfalso. apply Hc, in_map_iff. exists (k, v). auto.
    + apply IH; assumption.
Qed.

End KeepColsProofs.

(** X9: for a frame whose column names are distinct, lines 59-65 leave
    exactly the nine [keep_cols], in that order, over the same rows: a kept
    column that was present keeps its values, a kept column that was
    missing is all [NaN], and every other column is dropped. *)
Theorem complete_keep_cols_schema (V : Type) (df : cframe V) :
  NoDup (map fst (columns V df)) ->
  map fst (columns V (complete_keep_cols V df)) = keep_cols
  /\ nrows V (complete_keep_cols V df) = nrows V df
  /\ (forall c v, In (c, v) (columns V df) -> In c keep_cols -> In (c, v) (columns V (complete_keep_cols V df)))
  /\ (forall c, In c keep_cols -> ~ In c (map fst (columns V df)) ->
        In (c, repeat None (nrows V df)) (columns V (complete_keep_cols V df))).
Proof.
  intros Hnd.
  destruct (add_nan_cols_props V keep_cols df) as (H1 & H2 & H3 & H4 & H5). cbv zeta in *.
  set (df' := fold_left (add_nan_col V) keep_cols df) in *.
  change (complete_keep_cols V df) with (loc_cols V df' keep_cols).
  unfold loc_cols. cbn [columns nrows].
  specialize (H3 Hnd).
  assert (Hone : forall k, In k keep_cols -> exists v, In (k, v) (columns V df')
                   /\ List.filter (fun '(c, _) => String.eqb c k) (columns V df') = [(k, v)]).
  { intros k Hk. apply H4, in_map_iff in Hk as ([k' v] & E & Hp). simpl in E. subst k'.
    exists v. split; [exact Hp|]. apply filter_name_unique; assumption. }
  split; [|split; [exact H1|split]].
  - assert (Hks : forall ks, incl ks keep_cols ->
             map fst (flat_map (fun k => List.filter (fun '(c, _) => String.eqb c k) (columns V df')) ks) = ks).
    { induction ks as [|k ks IH]; intros Hi; [reflexivity|].
      rewrite flat_map_cons1. destruct (Hone k (Hi k (or_introl eq_refl))) as (v & _ & ->).
      cbn [List.app map fst]. f_equal. apply IH. intros x Hx. apply Hi. now right. }
    apply Hks, incl_refl.
  - intros c v Hv Hc. apply in_flat_map. exists c. split; [exact Hc|].
    rewrite (filter_name_unique V _ c v H3 (H2 _ Hv)). exact (or_introl eq_refl).
  - intros c Hc Hn. destruct (Hone c Hc) as (v & Hp & Hf).
    destruct (H5 c v Hp) as [Hv|Hv].
    + exfalso. apply Hn, in_map_iff. exists (c, v). exact (conj eq_refl Hv).
    + subst v. apply in_flat_map. exists c. split; [exact Hc|]. rewrite Hf. exact (or_introl eq_refl).
Qed.

Lemma complete_keep_cols_schema_witness :
  let df := mkCframe 2 [("location_id", [Some tt; Some tt]); ("Death rate", [None; Some tt]);
                        ("smoothing", [None; None])] in
  NoDup (map fst (columns unit df))
  /\ (map fst (columns unit (complete_keep_cols unit df)) = keep_cols
      /\ nrows unit (complete_keep_cols unit df) = nrows unit df
      /\ (forall c v, In (c, v) (columns unit df) -> In c keep_cols ->
            In (c, v) (columns unit (complete_keep_cols unit df)))
      /\ (forall c, In c keep_cols -> ~ In c (map fst (columns unit df)) ->
            In (c, repeat None (nrows unit df)) (columns unit (complete_keep_cols unit df)))).
Proof.
  cbv zeta.
  assert (Hnd : NoDup (map fst (columns unit (mkCframe 2 [("location_id", [Some tt; Some tt]);
                  ("Death rate", [None; Some tt]); ("smoothing", [None; None])]))))
    by (simpl; repeat constructor; simpl; intuition discriminate).
  split; [exact Hnd|]. exact (complete_keep_cols_schema unit _ Hnd).
Defined.
